(** * Secondary-index subsystem: dataport server, admin port, coordinator
      and compaction daemon.

    A shallow embedding of the Go sources (secondary/manager/coordinator.go,
    secondary/adminport/admin_httpd.go, the dataport server and the
    compaction daemon) together with the properties checked against them.

    Conventions.  Go maps are finite maps ([gmap]); their iteration order is
    unspecified in Go, so properties of code that ranges over a map are
    stated up to permutation.  Go [int]/[uint64] values are integers in [Z]
    with the conversions written out.  Goroutine spawns, socket closes and
    channel sends performed by a handler are recorded in an effect trace. *)

From Stdlib Require Import ZArith Lia List Ascii String.
From stdpp Require Import base numbers option list strings gmap.

Local Open Scope Z_scope.

(** ** Machine integers *)

Definition uint64_wrap (z : Z) : Z := z mod 2 ^ 64.

(** Go's [int(x)] for [x : uint64] on a 64-bit platform. *)
Definition int_of_uint64 (z : Z) : Z :=
  if z <? 2 ^ 63 then z else z - 2 ^ 64.

Definition max_int : Z := 2 ^ 63 - 1.

(** The value of an [int] computation: arithmetic on Go's [int] wraps
    around in 64 bits, two's complement. *)
Definition int_wrap (z : Z) : Z := (z + 2 ^ 63) mod 2 ^ 64 - 2 ^ 63.

(** ** Coordinator (secondary/manager/coordinator.go) *)

Module Manager.

(** The environment the coordinator is configured with: its own UDP address
    and the static list of peers. *)
Record env := Env {
  hostUDPAddr : string;
  peerUDPAddr : list string
}.

(** Persisted configuration ([r.ServerConfig]).  A key that cannot be read
    makes the getter return [0] together with an error. *)
Record ServerConfig := MkServerConfig {
  acceptedEpoch : option Z;
  currentEpoch : option Z
}.

Inductive error := ErrRepoWrite.

Definition GetAcceptedEpoch (cfg : ServerConfig) : Z * option error :=
  match acceptedEpoch cfg with
  | Some e => (e, None)
  | None => (0, Some ErrRepoWrite)
  end.

Definition GetCurrentEpoch (cfg : ServerConfig) : Z * option error :=
  match currentEpoch cfg with
  | Some e => (e, None)
  | None => (0, Some ErrRepoWrite)
  end.

(** The setters persist the value; [ok] is the outcome of the write to the
    repository (the write can fail, leaving the stored value as it was). *)
Definition SetAcceptedEpoch (ok : bool) (cfg : ServerConfig) (epoch : Z)
  : ServerConfig * option error :=
  if ok then (MkServerConfig (Some epoch) (currentEpoch cfg), None)
  else (cfg, Some ErrRepoWrite).

Definition SetCurrentEpoch (ok : bool) (cfg : ServerConfig) (epoch : Z)
  : ServerConfig * option error :=
  if ok then (MkServerConfig (acceptedEpoch cfg) (Some epoch), None)
  else (cfg, Some ErrRepoWrite).

(** The part of [Coordinator] the epoch and quorum callbacks touch. *)
Record Coordinator := MkCoordinator {
  c_env : env;
  config : ServerConfig;
  site_winningEpoch : Z;   (* c.site, as last set by UpdateWinningEpoch *)
  txn_epoch : Z            (* c.txn, as last set by SetEpoch *)
}.

Definition getPeerUDPAddr (c : Coordinator) : list string :=
  peerUDPAddr (c_env c).

Definition GetFollowerId (c : Coordinator) : string :=
  hostUDPAddr (c_env c).

Definition GetEnsembleSize (c : Coordinator) : Z :=
  uint64_wrap (uint64_wrap (Z.of_nat (length (getPeerUDPAddr c))) + 1).

Definition HasQuorum (c : Coordinator) (count : Z) : bool :=
  let ensembleSz := GetEnsembleSize c in
  int_of_uint64 (ensembleSz / 2) <? count.

Definition NotifyNewAcceptedEpoch (ok : bool) (c : Coordinator) (epoch : Z)
  : Coordinator * option error :=
  let oldEpoch := fst (GetAcceptedEpoch (config c)) in
  if oldEpoch <? epoch then
    match SetAcceptedEpoch ok (config c) epoch with
    | (_, Some err) => (c, Some err)
    | (cfg, None) =>
        (MkCoordinator (c_env c) cfg (site_winningEpoch c) (txn_epoch c), None)
    end
  else (c, None).

Definition NotifyNewCurrentEpoch (ok : bool) (c : Coordinator) (epoch : Z)
  : Coordinator * option error :=
  let oldEpoch := fst (GetCurrentEpoch (config c)) in
  if oldEpoch <? epoch then
    match SetCurrentEpoch ok (config c) epoch with
    | (_, Some err) => (c, Some err)
    | (cfg, None) => (MkCoordinator (c_env c) cfg epoch epoch, None)
    end
  else (c, None).

(** The stored epochs, as the getters report them. *)
Definition storedAccepted (c : Coordinator) : Z :=
  fst (GetAcceptedEpoch (config c)).

Definition storedCurrent (c : Coordinator) : Z :=
  fst (GetCurrentEpoch (config c)).

(** *** Request tracking ([CoordinatorState]) *)

(** A [*protocol.RequestHandle]: [hid] is the identity of the allocated
    handle (its address), [ReqId] the caller-supplied request id. *)
Record RequestHandle := MkHandle {
  hid : nat;
  ReqId : Z
}.

Record ProposalMsg := MkProposal {
  GetFid : string;
  GetReqId : Z;
  GetTxnid : Z
}.

(** [signalled] records the calls of [handle.CondVar.Signal()], oldest
    first; [allocated] counts the handles created by [NewRequest]. *)
Record CoordinatorState := MkState {
  incomings : list RequestHandle;
  pendings : gmap Z RequestHandle;
  proposals : gmap Z RequestHandle;
  signalled : list RequestHandle;
  allocated : nat
}.

Definition newCoordinatorState : CoordinatorState :=
  MkState [] ∅ ∅ [] 0.

(** [NewRequest]: allocate a handle and park it on [incomings]. *)
Definition NewRequest (id : Z) (s : CoordinatorState) : CoordinatorState :=
  let handle := MkHandle (allocated s) id in
  MkState (incomings s ++ [handle]) (pendings s) (proposals s)
          (signalled s) (S (allocated s)).

Definition AddPendingRequest (handle : RequestHandle) (s : CoordinatorState)
  : CoordinatorState :=
  MkState (incomings s) (<[ReqId handle := handle]> (pendings s))
          (proposals s) (signalled s) (allocated s).

(** The leader takes the next handle off the request channel and calls
    [AddPendingRequest] with it. *)
Definition dequeueRequest (s : CoordinatorState) : CoordinatorState :=
  match incomings s with
  | [] => s
  | handle :: rest =>
      AddPendingRequest handle
        (MkState rest (pendings s) (proposals s) (signalled s) (allocated s))
  end.

Definition updateRequestOnNewProposal (self : string) (proposal : ProposalMsg)
  (s : CoordinatorState) : CoordinatorState :=
  let fid := GetFid proposal in
  let reqId := GetReqId proposal in
  let txnid := GetTxnid proposal in
  if String.eqb fid self then
    match pendings s !! reqId with
    | Some handle =>
        MkState (incomings s) (delete reqId (pendings s))
                (<[txnid := handle]> (proposals s)) (signalled s) (allocated s)
    | None => s
    end
  else s.

Definition updateRequestOnCommit (txnid : Z) (s : CoordinatorState)
  : CoordinatorState :=
  match proposals s !! txnid with
  | Some handle =>
      MkState (incomings s) (pendings s) (delete txnid (proposals s))
              (signalled s ++ [handle]) (allocated s)
  | None => s
  end.

(** One step of the coordinator's request tracking during a serving cycle,
    from the state [bootstrap] creates up to [cleanupState]. *)
Inductive step (self : string) : CoordinatorState -> CoordinatorState -> Prop :=
| step_request id s : step self s (NewRequest id s)
| step_dequeue s : step self s (dequeueRequest s)
| step_proposal p s : step self s (updateRequestOnNewProposal self p s)
| step_commit txnid s : step self s (updateRequestOnCommit txnid s).

Inductive reachable (self : string) : CoordinatorState -> Prop :=
| reach_init : reachable self newCoordinatorState
| reach_step s s' : reachable self s -> step self s s' -> reachable self s'.

(** The handles stored in a request map. *)
Definition handlesOf (m : gmap Z RequestHandle) : list RequestHandle :=
  (map_to_list m).*2.

(** [cleanupState]: every handle still on the queue, pending or proposed
    gets the termination error and is signalled; the queue is drained and
    the two maps are left as they are.  The second component lists the
    handles whose [Err] was set.  (Closing the listener and the election
    site is left out.) *)
Definition cleanupState (s : CoordinatorState)
  : CoordinatorState * list RequestHandle :=
  let terminated :=
    (incomings s ++ handlesOf (pendings s) ++ handlesOf (proposals s))%list in
  (MkState [] (pendings s) (proposals s)
           (signalled s ++ terminated)%list (allocated s),
   terminated).

(** A handle that is at none of the places where the coordinator looks for
    handles, and has not been signalled. *)
Definition lost (h : RequestHandle) (s : CoordinatorState) : Prop :=
  (hid h < allocated s)%nat /\
  (h ∉ incomings s) /\
  (forall k, pendings s !! k <> Some h) /\
  (forall t, proposals s !! t <> Some h) /\
  (h ∉ signalled s).

(** Notifying a sequence of current epochs, each write succeeding. *)
Definition notifyCurrentEpochs (c : Coordinator) (epochs : list Z)
  : Coordinator :=
  foldl (fun c epoch => fst (NotifyNewCurrentEpoch true c epoch)) c epochs.

(** The bookkeeping invariant of the request tracking: handles are
    allocated once, a pending handle is filed under its own request id, and
    a handle is at one place only: on the queue, pending, proposed (under
    one txnid) or signalled. *)
Record tracked (s : CoordinatorState) : Prop := MkTracked {
  tr_queue_nodup : NoDup (incomings s);
  tr_queue : forall h, h ∈ incomings s -> (hid h < allocated s)%nat;
  tr_pending : forall k h, pendings s !! k = Some h ->
    ReqId h = k /\ (hid h < allocated s)%nat /\ h ∉ incomings s;
  tr_proposed : forall t h, proposals s !! t = Some h ->
    (hid h < allocated s)%nat /\ (h ∉ incomings s) /\
    (forall k, pendings s !! k <> Some h) /\
    (forall t', proposals s !! t' = Some h -> t' = t);
  tr_signalled_nodup : NoDup (signalled s);
  tr_signalled : forall h, h ∈ signalled s ->
    (hid h < allocated s)%nat /\ (h ∉ incomings s) /\
    (forall k, pendings s !! k <> Some h) /\
    (forall t, proposals s !! t <> Some h)
}.

(** A run that parks request 42, dequeues it and sees its proposal under
    txnid 100. *)
Definition exampleProposed (self : string) : CoordinatorState :=
  updateRequestOnNewProposal self (MkProposal self 42 100)
    (dequeueRequest (NewRequest 42 newCoordinatorState)).

(** *** Placing a new index ([findNextAvailNodeForIndex]) *)

(** The topology documents, with the fields the function reads (their types
    are declared outside the sources at hand). *)
Record IndexSliceLocator := MkSlice { Host : string }.
Record IndexSinglePartDistribution := MkSinglePart {
  Slices : list IndexSliceLocator
}.
Record IndexPartDistribution := MkPart {
  SinglePartition : IndexSinglePartDistribution
}.
Record IndexInstDistribution := MkInst {
  Partitions : list IndexPartDistribution
}.
Record IndexDefnDistribution := MkDefn {
  Instances : list IndexInstDistribution
}.
Record IndexTopology := MkTopology {
  Definitions : list IndexDefnDistribution
}.
Record GlobalTopology := MkGlobal { TopologyKeys : list string }.

(** What the function asks of the repository and of the environment; [None]
    is a non-nil error.  [GetTopologyByKey key] stands for
    [c.repo.GetTopologyByBucket(getBucketFromTopologyKey(key))]. *)
Record placementView := MkView {
  GetGlobalTopology : option GlobalTopology;
  getLocalHost : option string;
  getPeerHost : option (list string);
  GetTopologyByKey : string -> option IndexTopology
}.

Definition MaxInt32 : Z := 2 ^ 31 - 1.

(** [count, ok := indexCount[host]; if ok { indexCount[host] = count + 1 }] *)
Definition countSlice (indexCount : gmap string Z) (host : string)
  : gmap string Z :=
  match indexCount !! host with
  | Some count => <[host := count + 1]> indexCount
  | None => indexCount
  end.

(** The four nested loops over one bucket topology. *)
Definition countTopology (indexCount : gmap string Z) (t : IndexTopology)
  : gmap string Z :=
  foldl (fun ic defnRef =>
    foldl (fun ic inst =>
      foldl (fun ic partition =>
        foldl (fun ic slice => countSlice ic (Host slice)) ic
              (Slices (SinglePartition partition)))
        ic (Partitions inst))
      ic (Instances defnRef))
    indexCount (Definitions t).

(** The loop over the topology keys, which returns at the first topology
    that cannot be read. *)
Fixpoint countKeys (view : placementView) (keys : list string)
  (indexCount : gmap string Z) : option (gmap string Z) :=
  match keys with
  | [] => Some indexCount
  | key :: rest =>
      match GetTopologyByKey view key with
      | None => None
      | Some t => countKeys view rest (countTopology indexCount t)
      end
  end.

(** The search for the smallest count, in the iteration order of the map. *)
Definition pickLeast (indexCount : gmap string Z) : Z * string :=
  foldl (fun '(minCount, chosenHost) '(host, count) =>
           if count <? minCount then (count, host)
           else (minCount, chosenHost))
        (MaxInt32, EmptyString) (map_to_list indexCount).

Definition findNextAvailNodeForIndex (view : placementView) : option string :=
  match GetGlobalTopology view with
  | None => getLocalHost view
  | Some globalTop =>
      match getLocalHost view with
      | None => None
      | Some host =>
          let indexCount := <[host := 0]> (∅ : gmap string Z) in
          match getPeerHost view with
          | None => None
          | Some hosts =>
              let indexCount :=
                foldl (fun ic host => <[host := 0]> ic) indexCount hosts in
              match countKeys view (TopologyKeys globalTop) indexCount with
              | None => None
              | Some indexCount => Some (pickLeast indexCount).2
              end
          end
      end
  end.

(** The hosts of all the slices of a topology, and of the topologies listed
    under the given keys (those that can be read). *)
Definition sliceHosts (t : IndexTopology) : list string :=
  defnRef ← Definitions t;
  inst ← Instances defnRef;
  partition ← Partitions inst;
  Host <$> Slices (SinglePartition partition).

Definition allSliceHosts (view : placementView) (keys : list string)
  : list string :=
  key ← keys;
  match GetTopologyByKey view key with
  | Some t => sliceHosts t
  | None => []
  end.

(** The number of slices a host carries. *)
Definition load (hosts : list string) (host : string) : Z :=
  Z.of_nat (length (filter (fun h => h = host) hosts)).

(** A cluster of two nodes in which the one index of bucket "b1" has its
    slice on node "n1". *)
Definition examplePlacement : placementView :=
  MkView (Some (MkGlobal ["b1"%string])) (Some "n1"%string)
         (Some ["n2"%string])
         (fun key =>
            if String.eqb key "b1"
            then Some (MkTopology
                         [MkDefn [MkInst [MkPart (MkSinglePart
                                                    [MkSlice "n1"%string])]]])
            else None).

(** A run in which request id 42 is used again while the first request
    with that id is still pending. *)
Definition exampleReused : CoordinatorState :=
  NewRequest 42 (dequeueRequest (NewRequest 42 newCoordinatorState)).

End Manager.

(** ** Compaction daemon (indexer, compaction manager) *)

Module Indexer.

Local Open Scope string_scope.
Local Open Scope Z_scope.

(** *** Go library functions used by [needsCompaction] *)

Definition lower_ascii (c : ascii) : ascii :=
  let n := nat_of_ascii c in
  if ((65 <=? n) && (n <=? 90))%nat then ascii_of_nat (n + 32) else c.

(** Whether a string holds ASCII characters only.  The configuration
    strings are Go strings in UTF-8; the functions below model the Go
    library on ASCII text, where it works byte by byte. *)
Definition isASCII (s : string) : bool :=
  forallb (fun c => (nat_of_ascii c <? 128)%nat) (list_ascii_of_string s).

(** [strings.ToLower] on ASCII text: the letters A to Z are lowered, every
    other character is kept.  (On other text the Go function maps Unicode
    letters as well.) *)
Fixpoint ToLower (s : string) : string :=
  match s with
  | EmptyString => EmptyString
  | String c rest => String (lower_ascii c) (ToLower rest)
  end.

Definition is_space (c : ascii) : bool :=
  let n := nat_of_ascii c in
  ((9 <=? n) && (n <=? 13) || (n =? 32))%nat.

Fixpoint trim_left (l : list ascii) : list ascii :=
  match l with
  | c :: rest => if is_space c then trim_left rest else l
  | [] => []
  end.

(** [strings.TrimSpace] on ASCII text: leading and trailing tab, newline,
    vertical tab, form feed, carriage return and space are removed.  (On
    other text the Go function also removes the Unicode spaces.) *)
Definition TrimSpace (s : string) : string :=
  string_of_list_ascii
    (rev (trim_left (rev (trim_left (list_ascii_of_string s))))).

Inductive Weekday :=
  Sunday | Monday | Tuesday | Wednesday | Thursday | Friday | Saturday.

Definition Weekday_String (d : Weekday) : string :=
  match d with
  | Sunday => "Sunday" | Monday => "Monday" | Tuesday => "Tuesday"
  | Wednesday => "Wednesday" | Thursday => "Thursday" | Friday => "Friday"
  | Saturday => "Saturday"
  end.

(** The wall-clock reading [time.Now()] is an input of the model:
    [Clock_hour] and [Clock_min] are the hour (0 to 23) and the minute (0 to
    59) that [Clock()] returns, [Now_Weekday] is [Weekday()]. *)
Record Time := MkTime {
  Clock_hour : Z;
  Clock_min : Z;
  Now_Weekday : Weekday
}.

(** *** [fmt.Sscanf(interval, "%d:%d,%d:%d", ...)] *)

Definition is_digit (c : ascii) : bool :=
  let n := nat_of_ascii c in ((48 <=? n) && (n <=? 57))%nat.

Definition digit_val (c : ascii) : Z := Z.of_nat (nat_of_ascii c) - 48.

(** The scanner's [SkipSpace] before a number, on ASCII text: space, tab,
    vertical tab, form feed and carriage return are skipped; a newline is
    not (the scan fails on it, as it does here for want of a digit). *)
Fixpoint skip_blanks (l : list ascii) : list ascii :=
  match l with
  | c :: rest =>
      let n := nat_of_ascii c in
      if ((n =? 32) || (n =? 9) || (n =? 11) || (n =? 12) || (n =? 13))%nat
      then skip_blanks rest else l
  | [] => []
  end.

(** The longest prefix of digits and underscores, as the scanner collects
    it for the verb [%d]. *)
Fixpoint scan_number (l : list ascii) : list ascii * list ascii :=
  match l with
  | c :: rest =>
      if is_digit c || (nat_of_ascii c =? 95)%nat
      then let '(tok, rem) := scan_number rest in (c :: tok, rem)
      else ([], l)
  | [] => ([], [])
  end.

(** [strconv.ParseInt(tok, 10, 64)] on the digits of a token; an underscore
    is refused in base 10. *)
Fixpoint parse_digits (acc : Z) (tok : list ascii) : option Z :=
  match tok with
  | [] => Some acc
  | c :: rest =>
      if is_digit c then parse_digits (10 * acc + digit_val c) rest else None
  end.

(** One [%d]: skip blanks, an optional sign, at least one digit, and the
    value must fit an [int]. *)
Definition scanInt (l : list ascii) : option (Z * list ascii) :=
  let l := skip_blanks l in
  let '(neg, l) :=
    match l with
    | c :: rest =>
        if (nat_of_ascii c =? 45)%nat then (true, rest)
        else if (nat_of_ascii c =? 43)%nat then (false, rest)
        else (false, l)
    | [] => (false, l)
    end in
  let '(tok, rem) := scan_number l in
  match tok with
  | [] => None
  | _ =>
      match parse_digits 0 tok with
      | Some v =>
          let v := if neg then - v else v in
          if (- 2 ^ 63 <=? v) && (v <=? max_int) then Some (v, rem) else None
      | None => None
      end
  end.

(** A literal character of the format must match the next input character. *)
Definition scanLit (c : ascii) (l : list ascii) : option (list ascii) :=
  match l with
  | d :: rest => if Ascii.eqb c d then Some rest else None
  | [] => None
  end.

(** The result of [Sscanf]: the number of items stored, the four
    destinations (left at zero when not stored) and whether [err] is
    non-nil. *)
Record scanned := MkScanned {
  sc_n : Z;
  sc_start_hr : Z; sc_start_min : Z; sc_end_hr : Z; sc_end_min : Z;
  sc_err : bool
}.

Definition Sscanf_interval (s : string) : scanned :=
  match scanInt (list_ascii_of_string s) with
  | None => MkScanned 0 0 0 0 0 true
  | Some (a, l) =>
    match scanLit ":"%char l with
    | None => MkScanned 1 a 0 0 0 true
    | Some l =>
      match scanInt l with
      | None => MkScanned 1 a 0 0 0 true
      | Some (b, l) =>
        match scanLit ","%char l with
        | None => MkScanned 2 a b 0 0 true
        | Some l =>
          match scanInt l with
          | None => MkScanned 2 a b 0 0 true
          | Some (c, l) =>
            match scanLit ":"%char l with
            | None => MkScanned 3 a b c 0 true
            | Some l =>
              match scanInt l with
              | None => MkScanned 3 a b c 0 true
              | Some (d, _) => MkScanned 4 a b c d false
              end
            end
          end
        end
      end
    end
  end.

(** *** Configuration and statistics *)

(** The entries of [common.Config] read by the daemon. *)
Record Config := MkConfig {
  compaction_mode : string;
  min_size : Z;
  min_frag : Z;
  interval : string;
  days_of_week : list string
}.

(** Modelled from the spec: [IndexStorageStats] and its
    [GetFragmentation] are declared outside the sources at hand; the
    statistic is the disk size and the fragmentation percentage, the latter
    kept as the comparison the daemon makes with it. *)
Record IndexStorageStats := MkStats {
  DiskSize : Z;
  FragmentationAtLeast : Z -> bool
}.

(** The loop over [days] of [needsCompaction]: [Some true] when it returns
    from inside the loop, otherwise the final [hasDaysOfWeek]. *)
Fixpoint scanDays (today : string) (days : list string) (hasDaysOfWeek : bool)
  : bool + bool :=
  match days with
  | [] => inr hasDaysOfWeek
  | day :: rest =>
      if String.eqb (ToLower (TrimSpace day)) today then inl true
      else scanDays today rest true
  end.

Definition needsCompaction (now : Time) (stats : IndexStorageStats)
  (config : Config) : bool :=
  let mode := ToLower (compaction_mode config) in
  if String.eqb mode "full" then
    if (min_size config <? uint64_wrap (DiskSize stats))%Z then
      if FragmentationAtLeast stats (min_frag config) then true else false
    else false
  else
    let interval := interval config in
    let isCompactionInterval :=
      if negb (String.eqb interval "00:00,00:00") then
        let r := Sscanf_interval interval in
        let start_min :=
          int_wrap (sc_start_min r + int_wrap (sc_start_hr r * 60)) in
        let end_min :=
          int_wrap (sc_end_min r + int_wrap (sc_end_hr r * 60)) in
        if (sc_n r =? 4)%Z && negb (sc_err r) then
          let min := (Clock_min now + Clock_hour now * 60)%Z in
          if (min <? start_min)%Z || (end_min <? min)%Z then false else true
        else true
      else true in
    if negb isCompactionInterval then false
    else
      let today := ToLower (Weekday_String (Now_Weekday now)) in
      match scanDays today (days_of_week config) false with
      | inl b => b
      | inr _ => false
      end.

(** The start and the end of a scanned interval in minutes of the day, as
    the [int] additions and multiplications of [needsCompaction] give them
    (they wrap around for hours beyond the range of an [int]). *)
Definition startMinute (r : scanned) : Z :=
  int_wrap (sc_start_min r + int_wrap (sc_start_hr r * 60)).

Definition endMinute (r : scanned) : Z :=
  int_wrap (sc_end_min r + int_wrap (sc_end_hr r * 60)).

(** The interval gate of the circular mode: open when the interval is
    "00:00,00:00" or does not scan as four numbers, otherwise open from the
    start minute to the end minute of the day, both included. *)
Definition inInterval (now : Time) (interval : string) : bool :=
  if String.eqb interval "00:00,00:00" then true
  else
    let r := Sscanf_interval interval in
    if (sc_n r =? 4)%Z && negb (sc_err r) then
      (startMinute r <=? Clock_min now + Clock_hour now * 60)
      && (Clock_min now + Clock_hour now * 60 <=? endMinute r)
    else true.

(** Whether the mode, the interval and the days of a configuration are
    ASCII text. *)
Definition asciiConfig (config : Config) : bool :=
  isASCII (compaction_mode config) && isASCII (interval config)
  && forallb isASCII (days_of_week config).

(** Whether the weekday of [now] is among the configured days, compared
    after trimming blanks and lowering the case. *)
Definition dayConfigured (now : Time) (days : list string) : bool :=
  existsb (fun day =>
             String.eqb (ToLower (TrimSpace day))
                        (ToLower (Weekday_String (Now_Weekday now)))) days.

(** *** One tick of the daemon's loop *)

(** An element of the statistics reply, with the fields the loop reads
    ([is.InstId], [is.Stats.NeedUpgrade]) next to those [needsCompaction]
    reads. *)
Record IndexInstStats := MkInstStats {
  InstId : Z;
  NeedUpgrade : bool;
  Stats : IndexStorageStats
}.

(** The instances for which a tick of [loop] sends a compaction request, in
    order.  [forestdb] tells whether the storage mode is [FORESTDB], [ok]
    whether the timer channel delivered a value; each index comes with the
    clock reading [needsCompaction] would get when its turn comes (the
    requests are served one after the other). *)
Definition tickRequests (forestdb ok : bool)
  (readings : list (Time * IndexInstStats)) (conf : Config) : list Z :=
  if forestdb then
    if ok then
      (fun r => InstId r.2)
        <$> filter (fun r => NeedUpgrade r.2
                             || needsCompaction r.1 (Stats r.2) conf = true)
                   readings
    else []
  else [].

End Indexer.

(** ** Admin port (secondary/adminport/admin_httpd.go) *)

Module Adminport.

Local Open Scope string_scope.

Inductive error :=
| ErrorRegisteringRequest
| ErrorMessageUnknown
| ErrorPathNotFound.

(** A value implementing the [MessageMarshaller] interface: its name, and
    what [Decode] answers on a request body ([None] is a nil error, [Some e]
    an error with text [e]).  [Encode] gives the bytes or an error text. *)
Record MessageMarshaller := MkMessage {
  Name : string;
  Decode : string -> option string;
  Encode : string + string;
  ContentType : string
}.

(** [lis] is [true] once [Start] has bound the listener (non-nil). *)
Record httpServer := MkServer {
  lis : bool;
  urlPrefix : string;
  messages : gmap string MessageMarshaller
}.

Definition NewHTTPServer (urlPrefix : string) : httpServer :=
  MkServer false urlPrefix ∅.

Definition Register (msg : MessageMarshaller) (s : httpServer)
  : httpServer * option error :=
  if lis s then (s, Some ErrorRegisteringRequest)
  else
    let key := urlPrefix s ++ Name msg in
    (MkServer (lis s) (urlPrefix s) (<[key := msg]> (messages s)), None).

Definition Unregister (msg : MessageMarshaller) (s : httpServer)
  : httpServer * option error :=
  if lis s then (s, Some ErrorRegisteringRequest)
  else
    let name := Name msg in
    match messages s !! name with
    | None => (s, Some ErrorMessageUnknown)
    | Some _ =>
        (MkServer (lis s) (urlPrefix s) (delete name (messages s)), None)
    end.

(** *** The request handler *)

(** The parts of [*http.Request] the handler reads; [Body] is what
    [r.Body.Read] delivers. *)
Record Request := MkRequest {
  URL_Path : string;
  ContentLength : Z;
  Body : string
}.

(** What [systemHandler] does with a request up to the point where it
    either answers or hands the request to the application:
    - [HttpError code text]: it called [http.Error(w, text, code)] and
      returned;
    - [Recovered]: it panicked, the deferred function recovered, and the
      handler wrote neither a status nor a body to [w];
    - [ForwardedStats]: it sent a fresh [&c.ComponentStat{}] on [reqch];
    - [Forwarded msg]: it sent the decoded message on [reqch]. *)
Inductive outcome :=
| HttpError (code : Z) (text : string)
| Recovered
| ForwardedStats
| Forwarded (msg : MessageMarshaller).

Definition StatusInternalServerError : Z := 500.
Definition StatusNotFound : Z := 404.

(** The status the handler itself wrote with [http.Error], if any. *)
Definition writtenStatus (o : outcome) : option Z :=
  match o with
  | HttpError code _ => Some code
  | Recovered | ForwardedStats | Forwarded _ => None
  end.

Section Handler.

(** [c.StatsURLPath] and the text of [ErrorDecodeRequest] are declared in
    packages outside the sources at hand; the handler is parametric in
    them.  The statistics counters the handler bumps are left out. *)
Variable StatsURLPath : string -> string -> string.
Variable ErrorDecodeRequest : string.

Definition systemHandler (s : httpServer) (r : Request) : outcome :=
  let prefix := StatsURLPath (urlPrefix s) "" in
  if String.prefix prefix (URL_Path r) then
    ForwardedStats
  else
    let msg := messages s !! URL_Path r in
    (* make([]byte, r.ContentLength, r.ContentLength) *)
    if (ContentLength r <? 0)%Z then Recovered
    else
      (* reflect.ValueOf(msg).Elem() panics on a nil interface *)
      match msg with
      | None => Recovered
      | Some m =>
          match Decode m (Body r) with
          | Some err =>
              HttpError StatusInternalServerError
                        (ErrorDecodeRequest ++ " " ++ err)
          | None =>
              (* statPath = "/request." + msg.Name(); msg == nil is false *)
              Forwarded m
          end
      end.

End Handler.

(** *** Starting and stopping *)

(** What [shutdown] does to the listener and to the request channel. *)
Inductive effect :=
| ListenerClose     (* s.lis.Close() *)
| ReqchClose.       (* close(s.reqch) *)

(** [Start]: [listenOk] is the outcome of [net.Listen], whose listener
    (nil on failure) is stored in [s.lis]; the result tells whether the
    returned error is nil. *)
Definition Start (listenOk : bool) (s : httpServer) : httpServer * bool :=
  (MkServer listenOk (urlPrefix s) (messages s), listenOk).

Definition shutdown (s : httpServer) : httpServer * list effect :=
  if lis s
  then (MkServer false (urlPrefix s) (messages s), [ListenerClose; ReqchClose])
  else (s, []).

Definition Stop (s : httpServer) : httpServer * list effect := shutdown s.

(** A message type and a statistics path used in the examples. *)
Definition exampleMessage : MessageMarshaller :=
  MkMessage "req" (fun _ => None) (inl "") "application/octet-stream".

Definition exampleStatsURLPath (prefix path : string) : string :=
  prefix ++ "stats/" ++ path.

End Adminport.

(** ** Dataport server *)

Module Dataport.

Local Open Scope string_scope.

Inductive error :=
| ErrorDuplicateStreamBegin
| ErrorDuplicateClient
| ErrorPayload
| ErrorWorkerKilled
| ErrorDaemonExit
| io_EOF
| NetError (timeout : bool)   (* an error implementing [net.Error] *)
| AddrError.                  (* returned by [net.SplitHostPort] *)

Record bucketVbno := BV {
  bucket : string;
  vbno : Z
}.

#[global] Instance bucketVbno_eq_dec : EqDecision bucketVbno.
Proof. solve_decision. Defined.

Record RestartVbuckets := MkRestart {
  Bucket : string;
  Vbuckets : list Z
}.

Record ShutdownDataport := MkShutdown {
  sd_Bucket : string;
  sd_Vbuckets : list Z
}.

(** The values sent on the sideband channel. *)
Inductive appmsg :=
| Restart (rs : list RestartVbuckets)
| Shutdown (ss : list ShutdownDataport).

(** [conn] is the socket ([None] is the nil interface of a zero-value
    record); the [worker] channel is identified with the record's key. *)
Record netConn := NetConn {
  conn : option nat;
  active : bool
}.

(** [lis] tells whether [s.lis] is non-nil; a nil [s.conns] is the empty
    map; [finch] tells whether the shutdown latch has been closed. *)
Record Server := MkServer {
  lis : bool;
  conns : gmap string netConn;
  finch : bool
}.

(** What a handler does to the outside world, in program order. *)
Inductive effect :=
| ConnClose (c : option nat)                    (* conn.Close() *)
| WorkerClose (raddr : string)                  (* close(nc.worker) *)
| StartWorker (raddr : string) (nc : netConn)   (* go doReceive(.., nc, ..) *)
| Sideband (m : appmsg)                         (* s.sbch <- appmsg *)
| ListenerClose                                 (* s.lis.Close() *)
| FinchClose                                    (* close(s.finch) *)
| CloseRequested                                (* go s.Close() *)
| CloseReplied.                                 (* respch <- nil *)

(** *** [net.SplitHostPort] *)

Fixpoint indexByte (c : ascii) (s : string) : option nat :=
  match s with
  | EmptyString => None
  | String d r => if Ascii.eqb c d then Some 0%nat else S <$> indexByte c r
  end.

Fixpoint lastIndexByte (c : ascii) (s : string) : option nat :=
  match s with
  | EmptyString => None
  | String d r =>
      match lastIndexByte c r with
      | Some i => Some (S i)
      | None => if Ascii.eqb c d then Some 0%nat else None
      end
  end.

(** The Go library function, on the host and port it returns ([None] for
    a non-nil error). *)
Definition net_SplitHostPort (hostport : string) : option (string * string) :=
  match lastIndexByte ":" hostport with
  | None => None
  | Some i =>
      let n := String.length hostport in
      let port := substring (S i) (n - S i) hostport in
      let finish (host : string) (j k : nat) :=
        match indexByte "[" (substring j (n - j) hostport),
              indexByte "]" (substring k (n - k) hostport) with
        | None, None => Some (host, port)
        | _, _ => None
        end in
      match hostport with
      | String "[" _ =>
          match indexByte "]" hostport with
          | None => None
          | Some e =>
              if (S e =? n)%nat then None
              else if (S e =? i)%nat
                   then finish (substring 1 (e - 1) hostport) 1%nat (S e)
                   else None
          end
      | _ =>
          let host := substring 0 i hostport in
          match indexByte ":" host with
          | Some _ => None
          | None => finish host 0%nat 0%nat
          end
      end
  end.

(** Modelled from the spec: [c.ExcludeStrings] lives in the common package,
    outside the sources at hand; it drops from [strs] the strings listed in
    [excludes], keeping the order of the others. *)
Definition ExcludeStrings (strs excludes : list string) : list string :=
  filter (fun s => s ∉ excludes) strs.

(** *** Tracking the vbuckets of a connection *)

Definition sameUuid (uuid adduuid : bucketVbno) : bool :=
  String.eqb (bucket uuid) (bucket adduuid) && (vbno uuid =? vbno adduuid)%Z.

(** The nested loops of [addUuids]: [true] when they return the error. *)
Fixpoint addUuids_scan (started uuids : list bucketVbno) : bool :=
  match started with
  | [] => false
  | adduuid :: rest =>
      if existsb (fun uuid => sameUuid uuid adduuid) uuids then true
      else addUuids_scan rest uuids
  end.

Definition addUuids (started uuids : list bucketVbno)
  : error + list bucketVbno :=
  if addUuids_scan started uuids then inl ErrorDuplicateStreamBegin
  else inr (uuids ++ started)%list.

Definition delUuids (finished uuids : list bucketVbno)
  : error + list bucketVbno :=
  inr (filter (fun uuid =>
                 existsb (fun finuuid => sameUuid uuid finuuid) finished = false)
              uuids).

(** *** Gathering the vbuckets to restart *)

(** One iteration of the loop of [vbucketsForRemote]: the entry of the
    bucket is created when missing and the vbucket appended to it. *)
Definition addVbucket (buckets : gmap string RestartVbuckets)
  (uuid : bucketVbno) : gmap string RestartVbuckets :=
  let r := match buckets !! bucket uuid with
           | Some r => r
           | None => MkRestart (bucket uuid) []
           end in
  <[bucket uuid := MkRestart (Bucket r) (Vbuckets r ++ [vbno uuid])%list]>
    buckets.

(** [buckets] is shared with the caller and updated in place: the updated
    map is returned next to the result. *)
Definition vbucketsForRemote (uuids : list bucketVbno)
  (buckets : gmap string RestartVbuckets)
  : list RestartVbuckets * gmap string RestartVbuckets :=
  let buckets := foldl addVbucket buckets uuids in
  ((map_to_list buckets).*2, buckets).

(** [for ... { rs = vbucketsForRemote(uuids, buckets) }]: the result of the
    last call, over a map that accumulates; [rs] when the loop body never
    runs. *)
Fixpoint gatherRemotes (uuidss : list (list bucketVbno))
  (buckets : gmap string RestartVbuckets) (rs : option (list RestartVbuckets))
  : option (list RestartVbuckets) :=
  match uuidss with
  | [] => rs
  | uuids :: rest =>
      let '(rs', buckets') := vbucketsForRemote uuids buckets in
      gatherRemotes rest buckets' (Some rs')
  end.

Definition vbucketsForRemotes (remotes : gmap string (list bucketVbno))
  : list ShutdownDataport :=
  let rs := gatherRemotes (map_to_list remotes).*2 ∅ None in
  (fun r => MkShutdown (Bucket r) (Vbuckets r)) <$> default [] rs.

(** The bucket-vbucket pairs an event names. *)
Definition bvbsOf (rs : list RestartVbuckets) : list bucketVbno :=
  r ← rs; BV (Bucket r) <$> Vbuckets r.

Definition shutdownBvbsOf (ss : list ShutdownDataport) : list bucketVbno :=
  r ← ss; BV (sd_Bucket r) <$> sd_Vbuckets r.

(** Every entry of the accumulating map is filed under its own bucket. *)
Definition keyedByBucket (buckets : gmap string RestartVbuckets) : Prop :=
  forall (k : string) (r : RestartVbuckets),
    buckets !! k = Some r -> Bucket r = k.

(** Closing the socket and the worker channel of each listed address, with
    the sockets as [conns] has them. *)
Definition closeEffects (conns : gmap string netConn) (raddrs : list string)
  : list effect :=
  raddr ← raddrs;
  [ConnClose (conn (default (NetConn None false) (conns !! raddr)));
   WorkerClose raddr].

Definition deleteAll (raddrs : list string) (conns : gmap string netConn)
  : gmap string netConn :=
  foldl (fun m raddr => delete raddr m) conns raddrs.

Section Server.

(** The server is parametric in the address parser. *)
Variable SplitHostPort : string -> option (string * string).

(** [h, _, _ := net.SplitHostPort(s)]: the host is empty on error. *)
Definition hostOf (raddr : string) : string :=
  match SplitHostPort raddr with
  | Some (h, _) => h
  | None => ""
  end.

Definition remoteConnections (host : string) (conns : gmap string netConn)
  : list string :=
  filter (fun s => hostOf s = host) (map_to_list conns).*1.

(** The loop of [closeRemoteHost] over the connections of the host. *)
Fixpoint closeEach (craddrs : list string) (conns : gmap string netConn)
  (clientRaddrs : list string) (effs : list effect)
  : list string * gmap string netConn * list effect :=
  match craddrs with
  | [] => (clientRaddrs, conns, effs)
  | craddr :: rest =>
      let nc := default (NetConn None false) (conns !! craddr) in
      closeEach rest (delete craddr conns) (clientRaddrs ++ [craddr])%list
                (effs ++ [ConnClose (conn nc); WorkerClose craddr])%list
  end.

Definition closeRemoteHost (raddr : string) (conns : gmap string netConn)
  : list string * gmap string netConn * list effect :=
  match conns !! raddr with
  | Some _ =>
      let host := hostOf raddr in
      closeEach (remoteConnections host conns) conns [] []
  | None => ([], conns, [])
  end.

(** The loop [for len(raddrs) > 0] of [closeConnections]; [fuel] bounds the
    number of iterations and the addresses still to visit are returned. *)
Fixpoint closeConnections_loop (fuel : nat) (raddrs : list string)
  (conns : gmap string netConn) (effs : list effect)
  : list string * gmap string netConn * list effect :=
  match fuel, raddrs with
  | S fuel, raddr :: _ =>
      let '(closed, conns', effs') := closeRemoteHost raddr conns in
      closeConnections_loop fuel (ExcludeStrings raddrs closed) conns'
                            (effs ++ effs')%list
  | _, _ => (raddrs, conns, effs)
  end.

Definition closeConnections (conns : gmap string netConn)
  : list string * gmap string netConn * list effect :=
  let raddrs := (map_to_list conns).*1 in
  closeConnections_loop (length raddrs) raddrs conns [].

Definition handleNewConnection (raddr : string) (c : nat) (s : Server)
  : Server * option error :=
  match SplitHostPort raddr with
  | None => (s, Some AddrError)
  | Some _ =>
      match conns s !! raddr with
      | Some _ => (s, Some ErrorDuplicateClient)
      | None =>
          (MkServer (lis s)
                    (<[raddr := NetConn (Some c) false]> (conns s))
                    (finch s), None)
      end
  end.

(** [s.lis.Close()] on a nil listener panics; the deferred function of
    [handleClose] recovers and nothing else is done. *)
Definition handleClose (s : Server) : Server * list effect :=
  if lis s then
    let '(_, _, effs) := closeConnections (conns s) in
    (MkServer false ∅ true, ([ListenerClose] ++ effs ++ [FinchClose])%list)
  else (s, []).

(** [nc] is a copy of the record: setting [nc.active] leaves [s.conns] as
    it was. *)
Definition startWorker (raddr : string) (s : Server) : list effect :=
  let nc := default (NetConn None false) (conns s !! raddr) in
  [StartWorker raddr nc].

(** [jumboErrorHandler]: the message for the application ([None] is nil),
    the server afterwards and what was done. *)
Definition jumboErrorHandler (raddr : string)
  (remoteUuids : gmap string (list bucketVbno)) (err : option error)
  (s : Server) : option appmsg * Server * list effect :=
  match conns s !! raddr with
  | None => (None, s, [])
  | Some _ =>
      let whatJumbo :=
        match err with
        | Some io_EOF => Some "closeremote"
        | Some (NetError true) => Some "closeremote"
        | Some _ => Some "closeall"
        | None => None
        end in
      match whatJumbo with
      | None => (None, s, [])
      | Some what =>
          if String.eqb what "closeremote" then
            let '(closed, conns', effs) := closeRemoteHost raddr (conns s) in
            let msg :=
              gatherRemotes
                ((fun raddr => default [] (remoteUuids !! raddr)) <$> closed)
                ∅ None in
            (Restart <$> msg, MkServer (lis s) conns' (finch s), effs)
          else
            (Some (Shutdown (vbucketsForRemotes remoteUuids)), s,
             [CloseRequested])
      end
  end.

(** *** The actor *)

Inductive serverMessage :=
| serverCmdNewConnection (raddr : string) (c : nat)
| serverCmdVbmap (raddr : string) (b : string) (vbuckets : list Z)
| serverCmdVbcontrol (raddr : string) (started finished : list bucketVbno)
| serverCmdError (raddr : string) (err : option error)
| serverCmdClose.

(** The state of [genServer]: the server, the local [remoteUuids] and
    whether the loop is still running. *)
Record actor := MkActor {
  srv : Server;
  remoteUuids : gmap string (list bucketVbno);
  running : bool
}.

Definition uuidsOf (remoteUuids : gmap string (list bucketVbno))
  (raddr : string) : list bucketVbno :=
  default [] (remoteUuids !! raddr).

(** The end of an iteration: a non-nil [appmsg] goes to the sideband. *)
Definition sendAppmsg (appmsg : option appmsg) : list effect :=
  match appmsg with
  | Some m => [Sideband m]
  | None => []
  end.

(** A panic inside the loop: the deferred function of [genServer] runs
    [handleClose] and the routine ends. *)
Definition recoverPanic (a : actor) : actor * list effect :=
  let '(s, effs) := handleClose (srv a) in
  (MkActor s (remoteUuids a) false, effs).

(** One iteration of the loop of [genServer] on the message [msg]. *)
Definition genServer_step (a : actor) (msg : serverMessage)
  : actor * list effect :=
  let s := srv a in
  let uu := remoteUuids a in
  match msg with
  | serverCmdNewConnection raddr c =>
      match handleNewConnection raddr c s with
      | (s', Some _) => (MkActor s' uu true, [ConnClose (Some c)])
      | (s', None) =>
          (MkActor s' (<[raddr := []]> uu) true, startWorker raddr s')
      end
  | serverCmdVbmap raddr b vbuckets =>
      let uu' :=
        foldl (fun uu vbno =>
                 <[raddr := (uuidsOf uu raddr ++ [BV b (vbno mod 2 ^ 16)])%list]> uu)
              uu vbuckets in
      (MkActor s uu' true, startWorker raddr s)
  | serverCmdVbcontrol raddr started finished =>
      let uuids := uuidsOf uu raddr in
      let added :=
        if (0 <? length started)%nat then addUuids started uuids
        else inr uuids in
      match added with
      | inl _ => recoverPanic a
      | inr uuids =>
          let removed :=
            if (0 <? length finished)%nat then delUuids finished uuids
            else inr uuids in
          match removed with
          | inl _ => recoverPanic a
          | inr uuids =>
              (MkActor s (<[raddr := uuids]> uu) true, startWorker raddr s)
          end
      end
  | serverCmdClose =>
      let '(s', effs) := handleClose s in
      (MkActor s' uu false, (effs ++ [CloseReplied])%list)
  | serverCmdError raddr err =>
      let '(appmsg, s', effs) := jumboErrorHandler raddr uu err s in
      (MkActor s' uu true, (effs ++ sendAppmsg appmsg)%list)
  end.

(** [genServer] on the messages that arrive on [reqch], in order. *)
Fixpoint genServer (a : actor) (msgs : list serverMessage)
  : actor * list effect :=
  match msgs with
  | [] => (a, [])
  | msg :: rest =>
      if running a then
        let '(a', effs) := genServer_step a msg in
        let '(a'', effs') := genServer a' rest in
        (a'', (effs ++ effs')%list)
      else (a, [])
  end.

(** [NewServer]: the listener is bound, no connection yet. *)
Definition NewServer : actor := MkActor (MkServer true ∅ false) ∅ true.

End Server.

(** *** The reader's scan of a batch *)

Record KeyVersions := MkKv {
  Seqno : Z;
  Commands : list Z
}.

Record VbKeyVersions := MkVb {
  Bucketname : string;
  Vbucket : Z;
  Kvs : list KeyVersions
}.

(** Modelled from the spec: the command codes are declared in the common
    package, outside the sources at hand; the wire protocol gives
    [StreamBegin] as 1 and [StreamEnd] as 2. *)
Definition StreamBegin : Z := 1.
Definition StreamEnd : Z := 2.

Definition byte_of (z : Z) : Z := z mod 2 ^ 8.

(** The body of the inner loop of [updateActiveVbuckets] for one
    key-version; [None] is the run-time panic of [kv.GetCommands()[0]] on an
    empty list.  ([commands] and [seqnos] are only appended to and never
    read; they are left out.) *)
Definition scanKv (b : string) (vbno : Z) (kv : KeyVersions)
  (sf : list bucketVbno * list bucketVbno)
  : option (list bucketVbno * list bucketVbno) :=
  let '(started, finished) := sf in
  match Commands kv !! 0%nat with
  | None => None
  | Some cmd =>
      if (byte_of cmd =? StreamBegin)%Z
      then Some ((started ++ [BV b vbno])%list, finished)
      else if (byte_of cmd =? StreamEnd)%Z
           then Some (started, (finished ++ [BV b vbno])%list)
           else Some (started, finished)
  end.

Fixpoint scanKvs (b : string) (vbno : Z) (kvs : list KeyVersions)
  (sf : list bucketVbno * list bucketVbno)
  : option (list bucketVbno * list bucketVbno) :=
  match kvs with
  | [] => Some sf
  | kv :: rest => sf' ← scanKv b vbno kv sf; scanKvs b vbno rest sf'
  end.

(** [updateActiveVbuckets], the closure of [doReceive] that updates the
    captured [started] and [finished]. *)
Fixpoint updateActiveVbuckets (vbs : list VbKeyVersions)
  (sf : list bucketVbno * list bucketVbno)
  : option (list bucketVbno * list bucketVbno) :=
  match vbs with
  | [] => Some sf
  | vb :: rest =>
      sf' ← scanKvs (Bucketname vb) (Vbucket vb mod 2 ^ 16) (Kvs vb) sf;
      updateActiveVbuckets rest sf'
  end.

(** The loop body of [vbucketSchedule], which looks at [commands[0]] only
    under [len(commands) == 1]. *)
Definition scheduleKv (kv : KeyVersions)
  (se : option KeyVersions * option KeyVersions)
  : option KeyVersions * option KeyVersions :=
  match Commands kv with
  | [cmd] =>
      if (byte_of cmd =? StreamBegin)%Z then (Some kv, None)
      else if (byte_of cmd =? StreamEnd)%Z then (None, Some kv)
      else se
  | _ => se
  end.

Definition vbucketSchedule (vb : VbKeyVersions)
  : option KeyVersions * option KeyVersions :=
  foldl (fun se kv => scheduleKv kv se) (None, None) (Kvs vb).

(** The messages a run has sent on the sideband channel. *)
Definition sidebandEvents (effs : list effect) : list appmsg :=
  omap (fun e => match e with Sideband m => Some m | _ => None end) effs.

(** The message the deferred function of [listener] sends when the accept
    loop dies: [serverMessage{cmd: serverCmdError, err: ErrorDaemonExit}],
    with the zero value of [raddr]. *)
Definition daemonExitMessage : serverMessage :=
  serverCmdError "" (Some ErrorDaemonExit).

(** What holds of the actor between two messages, for the address parser
    [SplitHostPort]: while the loop runs the listener is bound and the latch
    open, once it has stopped the server is closed, and every address of
    the connection table parses and has a sequence in the remote-uuid
    map. *)
Record actorInv (SplitHostPort : string -> option (string * string))
  (a : actor) : Prop := MkActorInv {
  inv_running : running a = true -> lis (srv a) = true /\ finch (srv a) = false;
  inv_stopped : running a = false -> srv a = MkServer false ∅ true;
  inv_conns : forall r, is_Some (conns (srv a) !! r) ->
    is_Some (SplitHostPort r) /\ is_Some (remoteUuids a !! r)
}.

(** Whether a message is an error notification. *)
Definition isErrorMessage (msg : serverMessage) : bool :=
  match msg with
  | serverCmdError _ _ => true
  | _ => false
  end.

(** The pairs a batch begins, respectively ends: one per key-version whose
    first command is [StreamBegin], respectively [StreamEnd] and not
    [StreamBegin], in the order of the batch. *)
Definition firstCommandIs (code : Z) (kv : KeyVersions) : bool :=
  match Commands kv !! 0%nat with
  | Some cmd => (byte_of cmd =? code)%Z
  | None => false
  end.

Definition begunBy (vbs : list VbKeyVersions) : list bucketVbno :=
  vb ← vbs;
  kv ← Kvs vb;
  if firstCommandIs StreamBegin kv
  then [BV (Bucketname vb) (Vbucket vb mod 2 ^ 16)] else [].

Definition endedBy (vbs : list VbKeyVersions) : list bucketVbno :=
  vb ← vbs;
  kv ← Kvs vb;
  if negb (firstCommandIs StreamBegin kv) && firstCommandIs StreamEnd kv
  then [BV (Bucketname vb) (Vbucket vb mod 2 ^ 16)] else [].

(** Whether every key-version of a batch carries at least one command. *)
Definition hasCommands (vbs : list VbKeyVersions) : bool :=
  forallb (fun vb =>
             forallb (fun kv => match Commands kv with
                                | [] => false
                                | _ => true
                                end) (Kvs vb)) vbs.

(** *** Example runs *)

(** Two routers, the first with two connections; each connection has
    announced its vbuckets. *)
Definition exampleActor : actor :=
  fst (genServer net_SplitHostPort NewServer
         [serverCmdNewConnection "10.0.0.1:5000" 1;
          serverCmdNewConnection "10.0.0.1:5001" 2;
          serverCmdNewConnection "10.0.0.2:5000" 3;
          serverCmdVbmap "10.0.0.1:5000" "b" [0; 1]%Z;
          serverCmdVbmap "10.0.0.1:5001" "c" [2]%Z;
          serverCmdVbmap "10.0.0.2:5000" "b" [3]%Z]).

(** Two connections from different hosts that both begin the stream of
    vbucket 7 of bucket "b". *)
Definition duplicateRun : actor * list effect :=
  genServer net_SplitHostPort NewServer
    [serverCmdNewConnection "10.0.0.1:5000" 1;
     serverCmdNewConnection "10.0.0.2:5000" 2;
     serverCmdVbcontrol "10.0.0.1:5000" [BV "b" 7] [];
     serverCmdVbcontrol "10.0.0.2:5000" [BV "b" 7] []].

End Dataport.

(** * Properties *)

(** ** Coordinator: quorum and epochs *)

Section Quorum.

Import Manager.

Lemma uint64_wrap_small (z : Z) : 0 <= z < 2 ^ 64 -> uint64_wrap z = z.
Proof. intros H. unfold uint64_wrap. apply Z.mod_small. exact H. Qed.

Lemma int_of_uint64_small (z : Z) : z < 2 ^ 63 -> int_of_uint64 z = z.
Proof.
  intros H. unfold int_of_uint64.
  destruct (Z.ltb_spec z (2 ^ 63)); [reflexivity | lia].
Qed.

Lemma GetEnsembleSize_peers (c : Coordinator) :
  Z.of_nat (length (getPeerUDPAddr c)) <= max_int ->
  GetEnsembleSize c = Z.of_nat (length (getPeerUDPAddr c)) + 1.
Proof.
  unfold GetEnsembleSize, max_int. intros H.
  rewrite (uint64_wrap_small (Z.of_nat _)) by lia.
  apply uint64_wrap_small. lia.
Qed.

(** C6.  For a non-negative [count], [HasQuorum count] holds exactly when
    [count > ensembleSize / 2] (integer division), where the ensemble size
    is the number of configured peers plus one. *)
Theorem HasQuorum_strict_majority (c : Coordinator) (count : Z) :
  Z.of_nat (length (getPeerUDPAddr c)) <= max_int ->
  0 <= count ->
  GetEnsembleSize c = Z.of_nat (length (getPeerUDPAddr c)) + 1 /\
  (HasQuorum c count = true <-> count > GetEnsembleSize c / 2).
Proof.
  intros Hlen Hcount.
  pose proof (GetEnsembleSize_peers c Hlen) as Hsz.
  split; [exact Hsz |].
  unfold HasQuorum. cbv zeta. rewrite Hsz.
  set (n := Z.of_nat (length (getPeerUDPAddr c))) in *.
  assert (Hhalf : (n + 1) / 2 < 2 ^ 63).
  { apply Z.div_lt_upper_bound; unfold max_int in Hlen; lia. }
  rewrite (int_of_uint64_small _ Hhalf).
  rewrite Z.ltb_lt. lia.
Qed.

Lemma HasQuorum_strict_majority_witness :
  let c := MkCoordinator (Env "10.0.0.1:9000" ["10.0.0.2:9000"; "10.0.0.3:9000"])
                         (MkServerConfig None None) 0 0 in
  GetEnsembleSize c = 3 /\ (HasQuorum c 2 = true <-> 2 > GetEnsembleSize c / 2).
Proof.
  intros c.
  apply (HasQuorum_strict_majority c 2).
  - unfold max_int. simpl. lia.
  - lia.
Defined.

End Quorum.

Section Epochs.

Import Manager.

(** C7.  [NotifyNewAcceptedEpoch] and [NotifyNewCurrentEpoch] are monotone
    and idempotent: the stored epoch never decreases, it changes only when
    the notified epoch is strictly greater than the stored one (and then
    becomes the notified epoch), a notification that is not strictly greater
    changes nothing, and repeating a notification that returned without
    error changes nothing.  On a strictly greater current epoch that is
    stored, the winning epoch of the election site and the epoch of the
    txn-state become the new epoch. *)
Theorem epochs_monotone_idempotent (ok ok' : bool) (c : Coordinator) (n : Z) :
  let a := NotifyNewAcceptedEpoch ok c n in
  let b := NotifyNewCurrentEpoch ok c n in
  (storedAccepted c <= storedAccepted (fst a) /\
   storedCurrent c <= storedCurrent (fst b)) /\
  (storedAccepted (fst a) <> storedAccepted c ->
   storedAccepted c < n /\ storedAccepted (fst a) = n) /\
  (storedCurrent (fst b) <> storedCurrent c ->
   storedCurrent c < n /\ storedCurrent (fst b) = n) /\
  (n <= storedAccepted c -> a = (c, None)) /\
  (n <= storedCurrent c -> b = (c, None)) /\
  (snd a = None -> NotifyNewAcceptedEpoch ok' (fst a) n = (fst a, None)) /\
  (snd b = None -> NotifyNewCurrentEpoch ok' (fst b) n = (fst b, None)) /\
  (snd a <> None -> fst a = c) /\
  (snd b <> None -> fst b = c) /\
  (storedAccepted c < n -> snd a = None -> storedAccepted (fst a) = n) /\
  (storedCurrent c < n -> snd b = None ->
   storedCurrent (fst b) = n /\
   site_winningEpoch (fst b) = n /\ txn_epoch (fst b) = n).
Proof.
  destruct c as [e [acc cur] site txn]. intros a b. subst a b.
  unfold NotifyNewAcceptedEpoch, NotifyNewCurrentEpoch, storedAccepted,
    storedCurrent, GetAcceptedEpoch, GetCurrentEpoch, SetAcceptedEpoch,
    SetCurrentEpoch.
  destruct acc as [acc|], cur as [cur|], ok, ok'; simpl;
    repeat (match goal with
            | |- context [?x <? ?y] => destruct (Z.ltb_spec x y)
            end; simpl);
    repeat split; intros; simpl in *;
    try congruence; try lia; try (exfalso; lia).
Qed.

Lemma epochs_monotone_idempotent_witness :
  let c := MkCoordinator (Env "10.0.0.1:9000" [])
                         (MkServerConfig (Some 3) (Some 3)) 3 3 in
  let b := NotifyNewCurrentEpoch true c 5 in
  storedCurrent (fst b) = 5 /\
  site_winningEpoch (fst b) = 5 /\ txn_epoch (fst b) = 5.
Proof.
  intros c b.
  destruct (epochs_monotone_idempotent true true c 5)
    as (_ & _ & _ & _ & _ & _ & _ & _ & _ & _ & H).
  apply H; [reflexivity | reflexivity].
Defined.

End Epochs.

(** ** Compaction daemon *)

Section Compaction.

Import Indexer.
Local Open Scope string_scope.

Lemma Sscanf_interval_2_4 :
  Sscanf_interval "02:00,04:00" = MkScanned 4 2 0 4 0 false.
Proof. vm_compute. reflexivity. Qed.

(** In circular mode with the interval "02:00,04:00", a time of day before
    02:00 or after 04:00 alone makes [needsCompaction] answer [false]. *)
Lemma needsCompaction_outside_interval (now : Time) (stats : IndexStorageStats)
  (msize mfrag : Z) (days : list string) :
  Clock_hour now * 60 + Clock_min now < 2 * 60 \/
  4 * 60 < Clock_hour now * 60 + Clock_min now ->
  needsCompaction now stats (MkConfig "circular" msize mfrag "02:00,04:00" days)
  = false.
Proof.
  intros Hout. unfold needsCompaction.
  cbn [compaction_mode Indexer.interval days_of_week].
  change (String.eqb (ToLower "circular") "full") with false.
  change (String.eqb "02:00,04:00" "00:00,00:00") with false.
  rewrite Sscanf_interval_2_4.
  cbn [negb sc_n sc_err sc_start_hr sc_start_min sc_end_hr sc_end_min andb].
  change (4 =? 4)%Z with true. cbn iota.
  change (int_wrap (0 + int_wrap (2 * 60))) with 120%Z.
  change (int_wrap (0 + int_wrap (4 * 60))) with 240%Z.
  destruct (Z.ltb_spec (Clock_min now + Clock_hour now * 60) 120);
    destruct (Z.ltb_spec 240 (Clock_min now + Clock_hour now * 60));
    cbn; try reflexivity; lia.
Qed.

(** C9, as the code has it.  With [compaction_mode = "circular"],
    [interval = "02:00,04:00"] and [days_of_week = ["Sunday"]], for indexes
    whose turn comes at a time outside the interval on a weekday other than
    Sunday, [needsCompaction] answers [false] whatever the statistics and
    the thresholds are, and the tick of the daemon requests the compaction
    of the indexes that need an upgrade and of no other: none when no index
    needs an upgrade. *)
Theorem circular_gating_requests_upgrades_only (forestdb ok : bool)
  (readings : list (Time * IndexInstStats)) (msize mfrag : Z) :
  let conf := MkConfig "circular" msize mfrag "02:00,04:00" ["Sunday"] in
  Forall (fun r =>
            (Clock_hour r.1 * 60 + Clock_min r.1 < 2 * 60 \/
             4 * 60 < Clock_hour r.1 * 60 + Clock_min r.1) /\
            Now_Weekday r.1 <> Sunday) readings ->
  Forall (fun r => needsCompaction r.1 (Stats r.2) conf = false) readings /\
  tickRequests forestdb ok readings conf
  = (if forestdb && ok
     then (fun r => InstId r.2)
            <$> filter (fun r => NeedUpgrade r.2 = true) readings
     else []) /\
  (Forall (fun r => NeedUpgrade r.2 = false) readings ->
   tickRequests forestdb ok readings conf = []).
Proof.
  intros conf Hout.
  assert (Hfalse : Forall (fun r => needsCompaction r.1 (Stats r.2) conf = false)
                          readings).
  { apply (Forall_impl _ _ _ Hout). intros r [Hr _].
    apply needsCompaction_outside_interval. exact Hr. }
  assert (Hfilter :
    filter (fun r => NeedUpgrade r.2
                     || needsCompaction r.1 (Stats r.2) conf = true) readings
    = filter (fun r => NeedUpgrade r.2 = true) readings).
  { clear Hout. induction Hfalse as [| r rs Hr _ IH]; [reflexivity |].
    rewrite !filter_cons, IH, Hr, orb_false_r.
    destruct (NeedUpgrade r.2).
    - rewrite !decide_True by reflexivity. reflexivity.
    - rewrite !decide_False by discriminate. reflexivity. }
  split; [exact Hfalse |].
  assert (Htick : tickRequests forestdb ok readings conf
    = (if forestdb && ok
       then (fun r => InstId r.2)
              <$> filter (fun r => NeedUpgrade r.2 = true) readings
       else [])).
  { unfold tickRequests. rewrite Hfilter. destruct forestdb, ok; reflexivity. }
  split; [exact Htick |].
  intros Hnone. rewrite Htick.
  assert (Hempty : filter (fun r : Time * IndexInstStats => NeedUpgrade r.2 = true)
                          readings = []).
  { clear - Hnone. induction Hnone as [| r rs Hr _ IH]; [reflexivity |].
    rewrite filter_cons, IH, Hr. rewrite decide_False by discriminate.
    reflexivity. }
  rewrite Hempty. destruct (forestdb && ok); reflexivity.
Qed.

Lemma circular_gating_requests_upgrades_only_witness :
  let conf := MkConfig "circular" 1024 30 "02:00,04:00" ["Sunday"] in
  let readings :=
    [(MkTime 17 30 Wednesday,
      MkInstStats 1 false (MkStats (2 ^ 40) (fun _ => true)));
     (MkTime 17 31 Wednesday,
      MkInstStats 2 false (MkStats (2 ^ 41) (fun _ => true)))] in
  Forall (fun r => needsCompaction r.1 (Stats r.2) conf = false) readings /\
  tickRequests true true readings conf
  = (fun r => InstId r.2)
      <$> filter (fun r => NeedUpgrade r.2 = true) readings /\
  (Forall (fun r => NeedUpgrade r.2 = false) readings ->
   tickRequests true true readings conf = []).
Proof.
  intros conf readings.
  apply (circular_gating_requests_upgrades_only true true readings 1024 30).
  repeat constructor; cbn; try lia; discriminate.
Defined.

(** C9 as stated fails: at 17:30 on a Wednesday, outside the interval and
    not on the configured day, [needsCompaction] does answer [false] for a
    fragmented index, and yet the tick requests its compaction, because the
    index needs an upgrade. *)
Lemma circular_gating_upgrade_is_compacted :
  let now := MkTime 17 30 Wednesday in
  let conf := MkConfig "circular" 1024 30 "02:00,04:00" ["Sunday"] in
  let stats := MkStats (2 ^ 40) (fun _ => true) in
  4 * 60 < Clock_hour now * 60 + Clock_min now /\
  Now_Weekday now <> Sunday /\
  needsCompaction now stats conf = false /\
  tickRequests true true [(now, MkInstStats 7 true stats)] conf = [7].
Proof.
  cbv zeta. split; [cbn; lia |]. split; [discriminate |].
  split; vm_compute; reflexivity.
Qed.

End Compaction.

(** ** Admin port *)

Section AdminportProperties.

Import Adminport.
Local Open Scope string_scope.

Variable StatsURLPath : string -> string -> string.
Variable ErrorDecodeRequest : string.

(** A request body that fails to decode into the registered message type is
    answered with status 500 and the text of the error. *)
Lemma systemHandler_decode_failure (s : httpServer) (r : Request)
  (m : MessageMarshaller) (err : string) :
  String.prefix (StatsURLPath (urlPrefix s) "") (URL_Path r) = false ->
  (0 <= ContentLength r)%Z ->
  messages s !! URL_Path r = Some m ->
  Decode m (Body r) = Some err ->
  systemHandler StatsURLPath ErrorDecodeRequest s r
  = HttpError StatusInternalServerError (ErrorDecodeRequest ++ " " ++ err).
Proof.
  intros Hstat Hlen Hm Hdec. unfold systemHandler.
  rewrite Hstat, Hm, Hdec.
  destruct (Z.ltb_spec (ContentLength r) 0); [lia | reflexivity].
Qed.

(** A path that is neither under the statistics prefix nor registered makes
    the handler panic on the nil message; the panic is recovered and nothing
    is written. *)
Lemma systemHandler_unknown_path_recovered (s : httpServer) (r : Request) :
  String.prefix (StatsURLPath (urlPrefix s) "") (URL_Path r) = false ->
  messages s !! URL_Path r = None ->
  systemHandler StatsURLPath ErrorDecodeRequest s r = Recovered.
Proof.
  intros Hstat Hm. unfold systemHandler. rewrite Hstat, Hm.
  destruct (ContentLength r <? 0)%Z; reflexivity.
Qed.

(** No request is ever answered with status 404. *)
Lemma systemHandler_never_404 (s : httpServer) (r : Request) :
  writtenStatus (systemHandler StatsURLPath ErrorDecodeRequest s r)
  <> Some StatusNotFound.
Proof.
  unfold systemHandler.
  destruct (String.prefix _ _); [discriminate |].
  destruct (ContentLength r <? 0)%Z; [discriminate |].
  destruct (messages s !! URL_Path r) as [m|]; [| discriminate].
  destruct (Decode m (Body r)); discriminate.
Qed.

End AdminportProperties.

Section AdminportExamples.

Import Adminport.
Local Open Scope string_scope.

(** C2, at a request for an unregistered path outside the statistics
    sub-path: the handler panics on the nil message and recovers without
    having written a status, where the claim has 404. *)
Theorem systemHandler_unknown_path_no_404 :
  let s := fst (Register exampleMessage (NewHTTPServer "/adminport/")) in
  let r := MkRequest "/adminport/unknown" 0 "" in
  String.prefix (exampleStatsURLPath (urlPrefix s) "") (URL_Path r) = false /\
  messages s !! URL_Path r = None /\
  systemHandler exampleStatsURLPath "adminport.decodeRequest" s r = Recovered /\
  writtenStatus
    (systemHandler exampleStatsURLPath "adminport.decodeRequest" s r) = None.
Proof. vm_compute. repeat split; reflexivity. Qed.

(** C3, on a server whose URL prefix is not empty: [Register] files the
    message under prefix and name, [Unregister] looks it up under the name
    alone, answers [ErrorMessageUnknown] and leaves the entry in place. *)
Theorem Register_Unregister_keeps_entry :
  let s0 := NewHTTPServer "/adminport/" in
  let s1 := fst (Register exampleMessage s0) in
  snd (Register exampleMessage s0) = None /\
  Unregister exampleMessage s1 = (s1, Some ErrorMessageUnknown) /\
  messages s1 !! "/adminport/req" = Some exampleMessage /\
  messages (fst (Unregister exampleMessage s1)) <> ∅.
Proof.
  intros s0 s1.
  assert (H1 : messages s1 !! "/adminport/req" = Some exampleMessage)
    by (vm_compute; reflexivity).
  assert (H2 : Unregister exampleMessage s1 = (s1, Some ErrorMessageUnknown))
    by (vm_compute; reflexivity).
  repeat split; try assumption.
  rewrite H2. cbn [fst]. intros Hempty. rewrite Hempty in H1.
  rewrite lookup_empty in H1. discriminate.
Qed.

(** With an empty URL prefix the round trip does give back the registry. *)
Lemma Register_Unregister_empty_prefix (msg : MessageMarshaller)
  (s : httpServer) :
  lis s = false -> urlPrefix s = "" -> messages s !! Name msg = None ->
  Unregister msg (fst (Register msg s)) = (s, None).
Proof.
  intros Hlis Hpre Hnone. destruct s as [l p m]. simpl in *. subst l p.
  unfold Register, Unregister. simpl.
  rewrite lookup_insert_eq. rewrite delete_insert_eq.
  rewrite (delete_id m) by exact Hnone. reflexivity.
Qed.

(** [Unregister] of a message with no entry under its name. *)
Lemma Unregister_unknown (msg : MessageMarshaller) (s : httpServer) :
  lis s = false -> messages s !! Name msg = None ->
  Unregister msg s = (s, Some ErrorMessageUnknown).
Proof.
  intros Hlis Hnone. unfold Unregister. rewrite Hlis, Hnone. reflexivity.
Qed.

End AdminportExamples.

(** ** Dataport: the reader's scan *)

Section ReaderScan.

Import Dataport.
Local Open Scope string_scope.

(** When every key-version carries at least one command the scan of a batch
    runs to its end. *)
Lemma scanKvs_nonempty_commands (b : string) (vbno : Z)
  (kvs : list KeyVersions) (sf : list bucketVbno * list bucketVbno) :
  Forall (fun kv => Commands kv <> []) kvs ->
  is_Some (scanKvs b vbno kvs sf).
Proof.
  intros Hall. revert sf. induction Hall as [| kv kvs Hkv _ IH]; intros sf.
  - simpl. eauto.
  - simpl. unfold scanKv. destruct sf as [started finished].
    destruct (Commands kv) as [| cmd cmds]; [congruence |].
    simpl. destruct (byte_of cmd =? StreamBegin)%Z; simpl; [apply IH |].
    destruct (byte_of cmd =? StreamEnd)%Z; simpl; apply IH.
Qed.

Lemma updateActiveVbuckets_nonempty_commands (vbs : list VbKeyVersions)
  (sf : list bucketVbno * list bucketVbno) :
  Forall (fun vb => Forall (fun kv => Commands kv <> []) (Kvs vb)) vbs ->
  is_Some (updateActiveVbuckets vbs sf).
Proof.
  intros Hall. revert sf. induction Hall as [| vb vbs Hvb _ IH]; intros sf.
  - simpl. eauto.
  - simpl.
    destruct (scanKvs_nonempty_commands (Bucketname vb)
                (Vbucket vb mod 2 ^ 16) (Kvs vb) sf Hvb) as [sf' Hsf'].
    rewrite Hsf'. simpl. apply IH.
Qed.

(** C10, at a batch holding one key-version with an empty command list: the
    indexing [kv.GetCommands()[0]] of the reader's scan is out of range,
    whereas [vbucketSchedule], which checks the length first, goes
    through. *)
Theorem updateActiveVbuckets_empty_commands_panics :
  let batch := [MkVb "b" 0 [MkKv 1 []]] in
  updateActiveVbuckets batch ([], []) = None /\
  vbucketSchedule (MkVb "b" 0 [MkKv 1 []]) = (None, None).
Proof. split; reflexivity. Qed.

End ReaderScan.

(** ** Dataport: the actor *)

Section NewConnection.

Import Dataport.
Local Open Scope string_scope.

Variable SplitHostPort : string -> option (string * string).

(** C4, as the code has it.  For a new-connection message whose remote
    address parses and is not in the connection table, the actor allocates
    the connection record (not yet active), gives the address an empty
    sequence in the remote-uuid map and starts the reader for that
    connection at once; nothing is sent on the sideband. *)
Theorem new_connection_starts_reader (a : actor) (raddr : string) (c : nat)
  (hp : string * string) :
  SplitHostPort raddr = Some hp ->
  conns (srv a) !! raddr = None ->
  genServer_step SplitHostPort a (serverCmdNewConnection raddr c)
  = (MkActor (MkServer (lis (srv a))
                       (<[raddr := NetConn (Some c) false]> (conns (srv a)))
                       (finch (srv a)))
             (<[raddr := []]> (remoteUuids a)) true,
     [StartWorker raddr (NetConn (Some c) false)]).
Proof.
  intros Hparse Hfresh.
  unfold genServer_step, handleNewConnection, startWorker.
  rewrite Hparse, Hfresh. cbn [conns].
  rewrite lookup_insert_eq. reflexivity.
Qed.

End NewConnection.

Section NewConnectionExamples.

Import Dataport.
Local Open Scope string_scope.

Lemma new_connection_starts_reader_witness :
  genServer_step net_SplitHostPort NewServer
    (serverCmdNewConnection "10.0.0.1:5000" 1)
  = (MkActor (MkServer true
                (<["10.0.0.1:5000" := NetConn (Some 1%nat) false]> ∅) false)
             (<["10.0.0.1:5000" := []]> ∅) true,
     [StartWorker "10.0.0.1:5000" (NetConn (Some 1%nat) false)]).
Proof.
  apply (new_connection_starts_reader net_SplitHostPort NewServer
           "10.0.0.1:5000" 1 ("10.0.0.1", "5000")).
  - vm_compute. reflexivity.
  - reflexivity.
Defined.

(** C4 as stated fails: on the first connection of a fresh server the
    address is not in the table, and the step does start the reader. *)
Lemma new_connection_reader_not_deferred :
  conns (srv NewServer) !! "10.0.0.1:5000" = None /\
  ~ (forall nc, StartWorker "10.0.0.1:5000" nc
                ∉ snd (genServer_step net_SplitHostPort NewServer
                         (serverCmdNewConnection "10.0.0.1:5000" 1))).
Proof.
  split; [reflexivity |].
  intros H. apply (H (NetConn (Some 1%nat) false)).
  vm_compute. left.
Qed.

End NewConnectionExamples.

Section CloseRemote.

Import Dataport.
Local Open Scope string_scope.

Variable SplitHostPort : string -> option (string * string).

Local Abbreviation hostOf := (Dataport.hostOf SplitHostPort).
Local Abbreviation remoteConnections :=
  (Dataport.remoteConnections SplitHostPort).
Local Abbreviation closeRemoteHost := (Dataport.closeRemoteHost SplitHostPort).

Lemma elem_of_remoteConnections (host : string) (cs : gmap string netConn)
  (r : string) :
  r ∈ remoteConnections host cs ↔ is_Some (cs !! r) ∧ hostOf r = host.
Proof.
  unfold Dataport.remoteConnections. rewrite list_elem_of_filter.
  rewrite list_elem_of_fmap. split.
  - intros [Hh [[k nc] [-> Hin]]]. apply elem_of_map_to_list in Hin.
    simpl in *. split; [eauto | exact Hh].
  - intros [[nc Hnc] Hh]. split; [exact Hh |].
    exists (r, nc). split; [reflexivity |].
    apply elem_of_map_to_list. exact Hnc.
Qed.

Lemma NoDup_remoteConnections (host : string) (cs : gmap string netConn) :
  NoDup (remoteConnections host cs).
Proof. apply NoDup_filter, NoDup_fst_map_to_list. Qed.

Lemma lookup_deleteAll (l : list string) (cs : gmap string netConn)
  (r : string) :
  deleteAll l cs !! r = if decide (r ∈ l) then None else cs !! r.
Proof.
  unfold deleteAll. revert cs. induction l as [| k l IH]; intros cs; simpl.
  - destruct (decide (r ∈ [])) as [Hin |]; [| reflexivity].
    apply elem_of_nil in Hin. contradiction.
  - rewrite IH. destruct (decide (r ∈ l)) as [Hin | Hnin].
    + rewrite decide_True by (apply elem_of_cons; auto). reflexivity.
    + destruct (decide (r = k)) as [-> | Hne].
      * rewrite decide_True by (apply elem_of_cons; auto).
        apply lookup_delete_eq.
      * rewrite decide_False
          by (rewrite elem_of_cons; intros [? | ?]; contradiction).
        apply lookup_delete_ne. congruence.
Qed.

Lemma closeEffects_delete (k : string) (l : list string)
  (cs : gmap string netConn) :
  k ∉ l -> closeEffects (delete k cs) l = closeEffects cs l.
Proof.
  unfold closeEffects. induction l as [| r l IH]; intros Hk; [reflexivity |].
  apply not_elem_of_cons in Hk as [Hne Hk].
  rewrite !bind_cons. rewrite IH by exact Hk.
  rewrite lookup_delete_ne by exact Hne. reflexivity.
Qed.

Lemma closeEach_spec (l : list string) (cs : gmap string netConn)
  (acc : list string) (effs : list effect) :
  NoDup l ->
  closeEach l cs acc effs
  = (acc ++ l, deleteAll l cs, effs ++ closeEffects cs l)%list.
Proof.
  intros Hnd. revert cs acc effs.
  induction Hnd as [| r l Hr Hnd IH]; intros cs acc effs.
  - cbn [closeEach]. unfold closeEffects, deleteAll. cbn [foldl mbind].
    rewrite !app_nil_r. reflexivity.
  - cbn [closeEach]. rewrite IH. rewrite closeEffects_delete by exact Hr.
    unfold closeEffects, deleteAll. rewrite bind_cons. cbn [foldl].
    rewrite <- !app_assoc. reflexivity.
Qed.

Lemma closeRemoteHost_spec (raddr : string) (cs : gmap string netConn) :
  is_Some (cs !! raddr) ->
  closeRemoteHost raddr cs
  = (remoteConnections (hostOf raddr) cs,
     deleteAll (remoteConnections (hostOf raddr) cs) cs,
     closeEffects cs (remoteConnections (hostOf raddr) cs)).
Proof.
  intros [nc Hnc]. unfold Dataport.closeRemoteHost. rewrite Hnc.
  rewrite closeEach_spec by apply NoDup_remoteConnections.
  reflexivity.
Qed.

End CloseRemote.

Section GatherVbuckets.

Import Dataport.
Local Open Scope string_scope.

#[local] Instance bvbsOf_Permutation : Proper ((≡ₚ) ==> (≡ₚ)) bvbsOf.
Proof. intros l1 l2 H. unfold bvbsOf. rewrite H. reflexivity. Qed.

Lemma keyedByBucket_empty : keyedByBucket ∅.
Proof. intros k r H. rewrite lookup_empty in H. discriminate. Qed.

Lemma addVbucket_keyed (m : gmap string RestartVbuckets) (u : bucketVbno) :
  keyedByBucket m -> keyedByBucket (addVbucket m u).
Proof.
  intros Hwf k r. unfold addVbucket.
  destruct (decide (k = bucket u)) as [-> | Hne].
  - rewrite lookup_insert_eq. intros [= <-]. simpl.
    destruct (m !! bucket u) as [r0|] eqn:E; [exact (Hwf _ _ E) | reflexivity].
  - rewrite lookup_insert_ne by congruence. apply Hwf.
Qed.

Lemma addVbucket_bvbs (m : gmap string RestartVbuckets) (u : bucketVbno) :
  keyedByBucket m ->
  bvbsOf (map_to_list (addVbucket m u)).*2
  ≡ₚ bvbsOf (map_to_list m).*2 ++ [u].
Proof.
  intros Hwf. destruct u as [b v]. unfold addVbucket. cbn [bucket vbno].
  destruct (m !! b) as [r|] eqn:E.
  - pose proof (Hwf _ _ E) as Hb.
    rewrite <- insert_delete_eq.
    rewrite map_to_list_insert by apply lookup_delete_eq.
    rewrite <- (map_to_list_delete m b r E).
    unfold bvbsOf. rewrite !fmap_cons, !bind_cons. cbn [snd Bucket Vbuckets].
    rewrite Hb, fmap_app. cbn [fmap list_fmap].
    rewrite <- !app_assoc. apply Permutation_app_head.
    apply Permutation_app_comm.
  - rewrite map_to_list_insert by exact E.
    unfold bvbsOf. rewrite fmap_cons, bind_cons. cbn.
    apply (Permutation_app_comm [BV b v]).
Qed.

Lemma foldl_addVbucket_keyed (us : list bucketVbno)
  (m : gmap string RestartVbuckets) :
  keyedByBucket m -> keyedByBucket (foldl addVbucket m us).
Proof.
  revert m. induction us as [| u us IH]; intros m Hwf; [exact Hwf |].
  simpl. apply IH, addVbucket_keyed, Hwf.
Qed.

Lemma foldl_addVbucket_bvbs (us : list bucketVbno)
  (m : gmap string RestartVbuckets) :
  keyedByBucket m ->
  bvbsOf (map_to_list (foldl addVbucket m us)).*2
  ≡ₚ bvbsOf (map_to_list m).*2 ++ us.
Proof.
  revert m. induction us as [| u us IH]; intros m Hwf.
  - simpl. rewrite app_nil_r. reflexivity.
  - simpl. rewrite IH by (apply addVbucket_keyed, Hwf).
    rewrite addVbucket_bvbs by exact Hwf.
    rewrite <- app_assoc. reflexivity.
Qed.

(** When the loop body runs at least once, the result is the content of
    the map after all the sequences have been folded into it. *)
Lemma gatherRemotes_cons (rest : list (list bucketVbno))
  (uuids : list bucketVbno) (m : gmap string RestartVbuckets)
  (rs : option (list RestartVbuckets)) :
  gatherRemotes (uuids :: rest) m rs
  = Some (map_to_list (foldl addVbucket m (concat (uuids :: rest)))).*2.
Proof.
  revert uuids m rs. induction rest as [| u2 rest IH]; intros uuids m rs.
  - cbn [gatherRemotes vbucketsForRemote concat]. rewrite app_nil_r.
    reflexivity.
  - change (gatherRemotes (uuids :: u2 :: rest) m rs)
      with (gatherRemotes (u2 :: rest) (foldl addVbucket m uuids)
              (Some (map_to_list (foldl addVbucket m uuids)).*2)).
    rewrite IH. cbn [concat]. rewrite !foldl_app. reflexivity.
Qed.

Lemma keyed_buckets_NoDup (m : gmap string RestartVbuckets) :
  keyedByBucket m -> NoDup (Bucket <$> (map_to_list m).*2).
Proof.
  intros Hwf.
  assert (Heq : Bucket <$> (map_to_list m).*2 = (map_to_list m).*1).
  { rewrite <- list_fmap_compose. apply Forall_fmap_ext, Forall_forall.
    intros [k r] Hin. apply elem_of_map_to_list in Hin. simpl.
    exact (Hwf _ _ Hin). }
  rewrite Heq. apply NoDup_fst_map_to_list.
Qed.

End GatherVbuckets.

Section RemoteFailure.

Import Dataport.
Local Open Scope string_scope.

Variable SplitHostPort : string -> option (string * string).

Local Abbreviation hostOf := (Dataport.hostOf SplitHostPort).
Local Abbreviation remoteConnections :=
  (Dataport.remoteConnections SplitHostPort).

Lemma jumboErrorHandler_closeremote (raddr : string)
  (uu : gmap string (list bucketVbno)) (err : error) (s : Server)
  (nc : netConn) :
  err = io_EOF ∨ err = NetError true ->
  conns s !! raddr = Some nc ->
  jumboErrorHandler SplitHostPort raddr uu (Some err) s
  = (let closed := remoteConnections (hostOf raddr) (conns s) in
     (Restart <$> gatherRemotes (uuidsOf uu <$> closed) ∅ None,
      MkServer (lis s) (deleteAll closed (conns s)) (finch s),
      closeEffects (conns s) closed)).
Proof.
  intros Herr Hnc. unfold jumboErrorHandler. rewrite Hnc.
  pose proof (closeRemoteHost_spec SplitHostPort raddr (conns s)
                (ex_intro _ nc Hnc)) as Hclose.
  destruct Herr as [-> | ->]; cbv zeta; rewrite Hclose; reflexivity.
Qed.

(** C5.  On [error(raddr, err)] with [err] being [io.EOF] or a network
    timeout and [raddr] in the connection table, the actor closes exactly
    the connections whose host is that of [raddr] (socket and worker
    channel of each, and nothing else), the other connections stay in the
    table, and it sends one sideband event, a [[]RestartVbuckets] with one
    entry per bucket that holds exactly the bucket-vbucket pairs tracked for
    the closed connections. *)
Theorem remote_failure_closes_host (a : actor) (raddr : string) (err : error)
  (nc : netConn) :
  err = io_EOF ∨ err = NetError true ->
  conns (srv a) !! raddr = Some nc ->
  let host := hostOf raddr in
  let closed := remoteConnections host (conns (srv a)) in
  ∃ (a' : actor) (rs : list RestartVbuckets),
    genServer_step SplitHostPort a (serverCmdError raddr (Some err))
    = (a', (closeEffects (conns (srv a)) closed
            ++ [Sideband (Restart rs)])%list) ∧
    (∀ r, r ∈ closed ↔ is_Some (conns (srv a) !! r) ∧ hostOf r = host) ∧
    NoDup closed ∧
    (∀ r, conns (srv a') !! r
          = if decide (hostOf r = host) then None else conns (srv a) !! r) ∧
    NoDup (Bucket <$> rs) ∧
    bvbsOf rs ≡ₚ concat (uuidsOf (remoteUuids a) <$> closed) ∧
    remoteUuids a' = remoteUuids a ∧
    running a' = true.
Proof.
  intros Herr Hnc host closed.
  assert (Hin : raddr ∈ closed).
  { apply elem_of_remoteConnections. split; [eauto | reflexivity]. }
  unfold genServer_step.
  rewrite (jumboErrorHandler_closeremote _ _ _ _ nc Herr Hnc). cbv zeta.
  fold host. fold closed.
  destruct closed as [| r0 rest] eqn:Hclosed.
  { apply elem_of_nil in Hin. contradiction. }
  rewrite fmap_cons, gatherRemotes_cons, <- fmap_cons, <- Hclosed.
  set (m := foldl addVbucket ∅ (concat (uuidsOf (remoteUuids a) <$> closed))).
  eexists _, (map_to_list m).*2. split; [reflexivity |].
  assert (Hkeyed : keyedByBucket m)
    by apply foldl_addVbucket_keyed, keyedByBucket_empty.
  split; [intros r; apply elem_of_remoteConnections |].
  split; [apply NoDup_remoteConnections |].
  split.
  { intros r. cbn [srv conns]. rewrite lookup_deleteAll.
    pose proof (elem_of_remoteConnections SplitHostPort host (conns (srv a)) r)
      as Hr. fold closed in Hr.
    destruct (decide (r ∈ closed)) as [Hc | Hc];
      destruct (decide (hostOf r = host)) as [Hh | Hh]; try reflexivity.
    - apply Hr in Hc as [_ Hc]. contradiction.
    - destruct (conns (srv a) !! r) as [nc' |] eqn:E; [| reflexivity].
      exfalso. apply Hc, Hr. split; [eauto | exact Hh]. }
  split; [apply keyed_buckets_NoDup, Hkeyed |].
  split; [| split; reflexivity].
  unfold m. rewrite foldl_addVbucket_bvbs by apply keyedByBucket_empty.
  rewrite map_to_list_empty. reflexivity.
Qed.

End RemoteFailure.

Section DuplicateStreamBegin.

Import Dataport.
Local Open Scope string_scope.

Lemma sameUuid_spec (x y : bucketVbno) : sameUuid x y = true ↔ x = y.
Proof.
  unfold sameUuid. destruct x as [b v], y as [b' v']. cbn [bucket vbno].
  rewrite andb_true_iff, String.eqb_eq, Z.eqb_eq.
  split; [intros [-> ->]; reflexivity | intros [= -> ->]; auto].
Qed.

Lemma existsb_sameUuid (x : bucketVbno) (uuids : list bucketVbno) :
  existsb (fun uuid => sameUuid uuid x) uuids = true ↔ x ∈ uuids.
Proof.
  rewrite existsb_exists. split.
  - intros [y [Hin Hy]]. apply sameUuid_spec in Hy as ->.
    apply list_elem_of_In. exact Hin.
  - intros Hin. exists x. split; [apply list_elem_of_In, Hin |].
    apply sameUuid_spec. reflexivity.
Qed.

Lemma addUuids_scan_spec (started uuids : list bucketVbno) :
  addUuids_scan started uuids = true ↔ ∃ x, x ∈ started ∧ x ∈ uuids.
Proof.
  induction started as [| a started IH]; simpl.
  - split; [discriminate |]. intros [x [Hx _]].
    apply elem_of_nil in Hx. contradiction.
  - destruct (existsb (fun uuid => sameUuid uuid a) uuids) eqn:E.
    + split; [intros _ | reflexivity].
      exists a. split; [left | apply existsb_sameUuid, E].
    + rewrite IH. split.
      * intros [x [Hx Hu]]. exists x. split; [right; exact Hx | exact Hu].
      * intros [x [Hx Hu]]. apply elem_of_cons in Hx as [-> | Hx].
        -- apply existsb_sameUuid in Hu. congruence.
        -- exists x. auto.
Qed.

Lemma addUuids_duplicate (started uuids : list bucketVbno) :
  (∃ x, x ∈ started ∧ x ∈ uuids) ->
  addUuids started uuids = inl ErrorDuplicateStreamBegin.
Proof.
  intros H. apply addUuids_scan_spec in H. unfold addUuids.
  rewrite H. reflexivity.
Qed.

Lemma addUuids_fresh (started uuids : list bucketVbno) :
  (∀ x, x ∈ started -> x ∉ uuids) ->
  addUuids started uuids = inr (uuids ++ started)%list.
Proof.
  intros H. unfold addUuids.
  destruct (addUuids_scan started uuids) eqn:E; [| reflexivity].
  apply addUuids_scan_spec in E as [x [Hx Hu]].
  exfalso. exact (H x Hx Hu).
Qed.

Lemma elem_of_closeEffects (cs : gmap string netConn) (l : list string)
  (r : string) (nc : netConn) :
  r ∈ l -> cs !! r = Some nc ->
  ConnClose (conn nc) ∈ closeEffects cs l ∧ WorkerClose r ∈ closeEffects cs l.
Proof.
  intros Hin Hnc. unfold closeEffects.
  split; apply list_elem_of_bind; exists r; (split; [| exact Hin]);
    rewrite Hnc; cbn [default]; [left | right; left].
Qed.

End DuplicateStreamBegin.

Section Shutdown.

Import Dataport.
Local Open Scope string_scope.

Variable SplitHostPort : string -> option (string * string).

Local Abbreviation hostOf := (Dataport.hostOf SplitHostPort).
Local Abbreviation remoteConnections :=
  (Dataport.remoteConnections SplitHostPort).

(** The loop of [closeConnections] ends with nothing left to visit, given
    one unit of fuel per address, and by then every connection of the
    initial table [cs0] has been closed. *)
Lemma closeConnections_loop_spec (cs0 : gmap string netConn) (fuel : nat)
  (raddrs : list string) (cs : gmap string netConn) (effs : list effect) :
  (length raddrs ≤ fuel)%nat ->
  (∀ r, r ∈ raddrs ↔ is_Some (cs !! r)) ->
  (∀ r nc, cs0 !! r = Some nc ->
           cs !! r = Some nc ∨
           (ConnClose (conn nc) ∈ effs ∧ WorkerClose r ∈ effs)) ->
  ∃ effs',
    closeConnections_loop SplitHostPort fuel raddrs cs effs = ([], ∅, effs') ∧
    ∀ r nc, cs0 !! r = Some nc ->
            ConnClose (conn nc) ∈ effs' ∧ WorkerClose r ∈ effs'.
Proof.
  revert raddrs cs effs.
  induction fuel as [| fuel IH]; intros raddrs cs effs Hlen Hkeys Hdone.
  - destruct raddrs as [| r0 rest]; [| simpl in Hlen; lia].
    assert (Hcs : cs = ∅).
    { apply map_empty. intros r. apply eq_None_not_Some. intros Hs.
      apply Hkeys in Hs. apply elem_of_nil in Hs. exact Hs. }
    subst cs. exists effs. split; [reflexivity |].
    intros r nc Hr. destruct (Hdone r nc Hr) as [Hopen | Hclosed];
      [rewrite lookup_empty in Hopen; discriminate | exact Hclosed].
  - destruct raddrs as [| r0 rest].
    + assert (Hcs : cs = ∅).
      { apply map_empty. intros r. apply eq_None_not_Some. intros Hs.
        apply Hkeys in Hs. apply elem_of_nil in Hs. exact Hs. }
      subst cs. exists effs. split; [reflexivity |].
      intros r nc Hr. destruct (Hdone r nc Hr) as [Hopen | Hclosed];
        [rewrite lookup_empty in Hopen; discriminate | exact Hclosed].
    + assert (Hr0 : is_Some (cs !! r0)) by (apply Hkeys; left).
      cbn [closeConnections_loop].
      rewrite (closeRemoteHost_spec SplitHostPort r0 cs Hr0).
      set (closed := remoteConnections (hostOf r0) cs).
      assert (Hr0c : r0 ∈ closed).
      { apply elem_of_remoteConnections. split; [exact Hr0 | reflexivity]. }
      apply IH.
      * unfold ExcludeStrings.
        assert (Hlt : (length (filter (fun s => s ∉ closed) (r0 :: rest))
                       < length (r0 :: rest))%nat).
        { apply (length_filter_lt _ _ r0); [left | auto]. }
        lia.
      * intros r. unfold ExcludeStrings.
        rewrite list_elem_of_filter, lookup_deleteAll, Hkeys.
        destruct (decide (r ∈ closed)) as [Hc | Hc].
        -- split; [intros [Hn _]; contradiction |].
           intros Hs. apply is_Some_None in Hs. contradiction.
        -- split; [intros [_ Hs]; exact Hs | intros Hs; auto].
      * intros r nc Hr. rewrite lookup_deleteAll.
        destruct (Hdone r nc Hr) as [Hopen | [Hc1 Hc2]].
        -- destruct (decide (r ∈ closed)) as [Hc | Hc]; [right | left; exact Hopen].
           destruct (elem_of_closeEffects cs closed r nc Hc Hopen) as [H1 H2].
           split; apply elem_of_app; right; assumption.
        -- right. split; apply elem_of_app; left; assumption.
Qed.

Lemma closeConnections_spec (cs : gmap string netConn) :
  ∃ effs,
    closeConnections SplitHostPort cs = ([], ∅, effs) ∧
    ∀ r nc, cs !! r = Some nc ->
            ConnClose (conn nc) ∈ effs ∧ WorkerClose r ∈ effs.
Proof.
  unfold closeConnections. apply closeConnections_loop_spec.
  - lia.
  - intros r. rewrite list_elem_of_fmap. split.
    + intros [[k nc] [-> Hin]]. apply elem_of_map_to_list in Hin. eauto.
    + intros [nc Hnc]. exists (r, nc). split; [reflexivity |].
      apply elem_of_map_to_list. exact Hnc.
  - intros r nc Hr. left. exact Hr.
Qed.

(** [handleClose] on a server whose listener is still bound. *)
Lemma handleClose_spec (s : Server) :
  lis s = true ->
  ∃ effs,
    handleClose SplitHostPort s
    = (MkServer false ∅ true, ([ListenerClose] ++ effs ++ [FinchClose])%list) ∧
    closeConnections SplitHostPort (conns s) = ([], ∅, effs) ∧
    ∀ r nc, conns s !! r = Some nc ->
            ConnClose (conn nc) ∈ effs ∧ WorkerClose r ∈ effs.
Proof.
  intros Hlis. destruct (closeConnections_spec (conns s)) as [effs [Heq Hall]].
  exists effs. unfold handleClose. rewrite Hlis, Heq. auto.
Qed.

End Shutdown.

Section VbControl.

Import Dataport.
Local Open Scope string_scope.

Variable SplitHostPort : string -> option (string * string).

(** C1, as the code has it.  On [vb-control(raddr, started, finished)] the
    started pairs are compared with the pairs tracked under [raddr] itself,
    not with those of the other remote addresses.  When a started pair is
    already tracked under [raddr], [addUuids] answers
    [ErrorDuplicateStreamBegin] and the actor treats it as fatal: it closes
    the listener and every connection (socket and worker channel), empties
    the connection table, closes the shutdown latch and stops.  When no
    started pair is tracked under [raddr], the started pairs are appended to
    the sequence of [raddr], the finished ones removed, and the reader is
    started again. *)
Theorem vbcontrol_duplicate_is_fatal (a : actor) (raddr : string)
  (started finished : list bucketVbno) :
  lis (srv a) = true ->
  let uuids := uuidsOf (remoteUuids a) raddr in
  ((∃ x, x ∈ started ∧ x ∈ uuids) ->
   addUuids started uuids = inl ErrorDuplicateStreamBegin ∧
   ∃ (a' : actor) (effs : list effect),
     genServer_step SplitHostPort a (serverCmdVbcontrol raddr started finished)
     = (a', effs) ∧
     running a' = false ∧
     srv a' = MkServer false ∅ true ∧
     ListenerClose ∈ effs ∧ FinchClose ∈ effs ∧
     ∀ r nc, conns (srv a) !! r = Some nc ->
             ConnClose (conn nc) ∈ effs ∧ WorkerClose r ∈ effs) ∧
  ((∀ x, x ∈ started -> x ∉ uuids) ->
   addUuids started uuids = inr (uuids ++ started)%list ∧
   genServer_step SplitHostPort a (serverCmdVbcontrol raddr started finished)
   = (MkActor (srv a)
              (<[raddr :=
                   filter (fun uuid =>
                             existsb (fun finuuid => sameUuid uuid finuuid)
                                     finished = false)
                          (uuids ++ started)%list]> (remoteUuids a))
              true,
      startWorker raddr (srv a))).
Proof.
  intros Hlis uuids. split.
  - intros Hdup. pose proof (addUuids_duplicate _ _ Hdup) as Hadd.
    split; [exact Hadd |].
    destruct (handleClose_spec SplitHostPort (srv a) Hlis)
      as [ceffs [Hclose [_ Hall]]].
    assert (Hne : (0 <? length started)%nat = true).
    { destruct Hdup as [x [Hx _]]. destruct started; [| reflexivity].
      apply elem_of_nil in Hx. contradiction. }
    unfold genServer_step. fold uuids. rewrite Hne, Hadd.
    unfold recoverPanic. rewrite Hclose.
    eexists _, _. split; [reflexivity |]. cbn [running srv].
    split; [reflexivity |]. split; [reflexivity |].
    split; [left |].
    split; [apply elem_of_app; right; apply elem_of_app; right; left |].
    intros r nc Hr. destruct (Hall r nc Hr) as [H1 H2].
    split; apply elem_of_app; right; apply elem_of_app; left; assumption.
  - intros Hfresh. pose proof (addUuids_fresh _ _ Hfresh) as Hadd.
    split; [exact Hadd |].
    unfold genServer_step. fold uuids.
    assert (Hstep1 :
      (if (0 <? length started)%nat then addUuids started uuids
       else inr uuids) = inr (uuids ++ started)%list).
    { destruct started; [cbn; rewrite app_nil_r; reflexivity |].
      cbn [length Nat.ltb Nat.leb]. exact Hadd. }
    rewrite Hstep1.
    assert (Hstep2 :
      (if (0 <? length finished)%nat
       then delUuids finished (uuids ++ started)%list
       else inr (uuids ++ started)%list)
      = inr (filter (fun uuid =>
                       existsb (fun finuuid => sameUuid uuid finuuid)
                               finished = false)
                    (uuids ++ started)%list) :> error + list bucketVbno).
    { destruct finished; [| reflexivity]. cbn [length Nat.ltb Nat.leb existsb].
      f_equal. generalize (uuids ++ started)%list. intros l.
      induction l as [| u l IHl]; [reflexivity |].
      rewrite filter_cons_True by reflexivity. congruence. }
    rewrite Hstep2. reflexivity.
Qed.

End VbControl.

Section ActorExamples.

Import Dataport.
Local Open Scope string_scope.

Lemma vbcontrol_duplicate_is_fatal_witness :
  let a := exampleActor in
  let raddr := "10.0.0.1:5000" in
  addUuids [BV "b" 1] (uuidsOf (remoteUuids a) raddr)
  = inl ErrorDuplicateStreamBegin ∧
  ∃ (a' : actor) (effs : list effect),
    genServer_step net_SplitHostPort a
      (serverCmdVbcontrol raddr [BV "b" 1] []) = (a', effs) ∧
    running a' = false ∧
    srv a' = MkServer false ∅ true ∧
    ListenerClose ∈ effs ∧ FinchClose ∈ effs ∧
    ∀ r nc, conns (srv a) !! r = Some nc ->
            ConnClose (conn nc) ∈ effs ∧ WorkerClose r ∈ effs.
Proof.
  intros a raddr.
  apply (proj1 (vbcontrol_duplicate_is_fatal net_SplitHostPort a raddr
                  [BV "b" 1] [] eq_refl)).
  exists (BV "b" 1). split; [left |]. vm_compute. right. left.
Defined.

(** C1 as stated fails: after both connections have begun the stream of
    ("b", 7) the pair is tracked under two distinct remote addresses, the
    actor is still running with both connections open, and nothing has been
    sent on the sideband. *)
Lemma duplicate_across_connections_undetected :
  "10.0.0.1:5000" ≠ "10.0.0.2:5000" ∧
  BV "b" 7 ∈ uuidsOf (remoteUuids (fst duplicateRun)) "10.0.0.1:5000" ∧
  BV "b" 7 ∈ uuidsOf (remoteUuids (fst duplicateRun)) "10.0.0.2:5000" ∧
  running (fst duplicateRun) = true ∧
  is_Some (conns (srv (fst duplicateRun)) !! "10.0.0.1:5000") ∧
  is_Some (conns (srv (fst duplicateRun)) !! "10.0.0.2:5000") ∧
  sidebandEvents (snd duplicateRun) = [].
Proof.
  split; [discriminate |].
  split; [vm_compute; left |].
  split; [vm_compute; left |].
  split; [vm_compute; reflexivity |].
  split; [vm_compute; eauto |].
  split; [vm_compute; eauto | vm_compute; reflexivity].
Qed.

Lemma remote_failure_closes_host_witness :
  let a := exampleActor in
  let raddr := "10.0.0.1:5000" in
  let host := hostOf net_SplitHostPort raddr in
  let closed := remoteConnections net_SplitHostPort host (conns (srv a)) in
  ∃ (a' : actor) (rs : list RestartVbuckets),
    genServer_step net_SplitHostPort a (serverCmdError raddr (Some io_EOF))
    = (a', (closeEffects (conns (srv a)) closed
            ++ [Sideband (Restart rs)])%list) ∧
    (∀ r, r ∈ closed ↔
          is_Some (conns (srv a) !! r) ∧ hostOf net_SplitHostPort r = host) ∧
    NoDup closed ∧
    (∀ r, conns (srv a') !! r
          = if decide (hostOf net_SplitHostPort r = host) then None
            else conns (srv a) !! r) ∧
    NoDup (Bucket <$> rs) ∧
    bvbsOf rs ≡ₚ concat (uuidsOf (remoteUuids a) <$> closed) ∧
    remoteUuids a' = remoteUuids a ∧
    running a' = true.
Proof.
  intros a raddr.
  apply (remote_failure_closes_host net_SplitHostPort a raddr io_EOF
           (NetConn (Some 1%nat) false)).
  - left. reflexivity.
  - vm_compute. reflexivity.
Defined.

(** The same failure, computed: both connections of 10.0.0.1 are closed,
    the connection of 10.0.0.2 stays, and the one event names the vbuckets
    of the two closed connections by bucket. *)
Lemma remote_failure_example :
  let '(a', effs) := genServer_step net_SplitHostPort exampleActor
                       (serverCmdError "10.0.0.1:5000" (Some io_EOF)) in
  (map_to_list (conns (srv a'))).*1 = ["10.0.0.2:5000"] ∧
  ∃ rs, sidebandEvents effs = [Restart rs] ∧
        rs ≡ₚ [MkRestart "b" [0; 1]%Z; MkRestart "c" [2]%Z].
Proof.
  vm_compute. split; [reflexivity |].
  eexists. split; [reflexivity |]. apply perm_swap.
Qed.

End ActorExamples.

(** ** Coordinator: request tracking *)

Section RequestTracking.

Import Manager.

Variable self : string.

Lemma tracked_init : tracked newCoordinatorState.
Proof.
  split; cbn.
  - constructor.
  - intros h Hh. apply elem_of_nil in Hh. contradiction.
  - intros k h Hk. rewrite lookup_empty in Hk. discriminate.
  - intros t h Ht. rewrite lookup_empty in Ht. discriminate.
  - constructor.
  - intros h Hh. apply elem_of_nil in Hh. contradiction.
Qed.

Lemma tracked_NewRequest (id : Z) (s : CoordinatorState) :
  tracked s -> tracked (NewRequest id s).
Proof.
  intros [Hnd Hq Hp Hpr Hsnd Hs].
  assert (Hfresh : forall h, (hid h < allocated s)%nat ->
                             h ≠ MkHandle (allocated s) id).
  { intros h Hlt ->. cbn in Hlt. lia. }
  assert (Hout : forall h, (hid h < allocated s)%nat -> h ∉ incomings s ->
                           h ∉ (incomings s ++ [MkHandle (allocated s) id])%list).
  { intros h Hlt Hn Hin. apply elem_of_app in Hin as [Hin | Hin];
      [exact (Hn Hin) |].
    apply list_elem_of_singleton in Hin. exact (Hfresh h Hlt Hin). }
  split; cbn.
  - apply NoDup_app. split; [exact Hnd |]. split; [| apply NoDup_singleton].
    intros h Hin Hin'. apply list_elem_of_singleton in Hin'.
    exact (Hfresh h (Hq h Hin) Hin').
  - intros h Hin. apply elem_of_app in Hin as [Hin | Hin].
    + specialize (Hq h Hin). lia.
    + apply list_elem_of_singleton in Hin as ->. cbn. lia.
  - intros k h Hk. destruct (Hp k h Hk) as (H1 & H2 & H3).
    split; [exact H1 |]. split; [lia | auto].
  - intros t h Ht. destruct (Hpr t h Ht) as (H1 & H2 & H3 & H4).
    split; [lia |]. split; [auto |]. split; assumption.
  - exact Hsnd.
  - intros h Hh. destruct (Hs h Hh) as (H1 & H2 & H3 & H4).
    split; [lia |]. split; [auto |]. split; assumption.
Qed.

Lemma tracked_dequeueRequest (s : CoordinatorState) :
  tracked s -> tracked (dequeueRequest s).
Proof.
  intros Htr. unfold dequeueRequest.
  destruct (incomings s) as [| h0 rest] eqn:Hinc; [exact Htr |].
  destruct Htr as [Hnd Hq Hp Hpr Hsnd Hs]. rewrite Hinc in *.
  apply NoDup_cons in Hnd as [Hh0 Hnd].
  assert (Hrest : forall h, h ∉ h0 :: rest -> (h ∉ rest) ∧ h ≠ h0).
  { intros h Hn. apply not_elem_of_cons in Hn as [? ?]. auto. }
  assert (Hpend : forall h, h ∉ h0 :: rest ->
            (forall k, pendings s !! k ≠ Some h) ->
            forall k, <[ReqId h0 := h0]> (pendings s) !! k ≠ Some h).
  { intros h Hn Hk k. destruct (Hrest h Hn) as [_ Hne].
    destruct (decide (k = ReqId h0)) as [-> | Hkne].
    - rewrite lookup_insert_eq. congruence.
    - rewrite lookup_insert_ne by congruence. apply Hk. }
  split; cbn.
  - exact Hnd.
  - intros h Hin. apply Hq. right. exact Hin.
  - intros k h. destruct (decide (k = ReqId h0)) as [-> | Hkne].
    + rewrite lookup_insert_eq. intros [= <-].
      split; [reflexivity |]. split; [apply Hq; left | exact Hh0].
    + rewrite lookup_insert_ne by congruence. intros Hk.
      destruct (Hp k h Hk) as (H1 & H2 & H3).
      split; [exact H1 |]. split; [exact H2 | apply Hrest, H3].
  - intros t h Ht. destruct (Hpr t h Ht) as (H1 & H2 & H3 & H4).
    split; [exact H1 |]. split; [apply Hrest, H2 |].
    split; [apply Hpend; assumption | exact H4].
  - exact Hsnd.
  - intros h Hh. destruct (Hs h Hh) as (H1 & H2 & H3 & H4).
    split; [exact H1 |]. split; [apply Hrest, H2 |].
    split; [apply Hpend; assumption | exact H4].
Qed.

Lemma tracked_updateRequestOnNewProposal (p : ProposalMsg)
  (s : CoordinatorState) :
  tracked s -> tracked (updateRequestOnNewProposal self p s).
Proof.
  intros Htr. unfold updateRequestOnNewProposal.
  destruct (String.eqb (GetFid p) self); [| exact Htr].
  destruct (pendings s !! GetReqId p) as [h0 |] eqn:Hh0; [| exact Htr].
  destruct Htr as [Hnd Hq Hp Hpr Hsnd Hs].
  destruct (Hp _ _ Hh0) as (Hid0 & Hlt0 & Hout0).
  assert (Hdel : forall k h, delete (GetReqId p) (pendings s) !! k = Some h ->
                             pendings s !! k = Some h ∧ k ≠ GetReqId p).
  { intros k h Hk. apply lookup_delete_Some in Hk as [? ?]. auto. }
  split; cbn.
  - exact Hnd.
  - exact Hq.
  - intros k h Hk. apply Hdel in Hk as [Hk _]. exact (Hp k h Hk).
  - intros t h Ht.
    destruct (decide (t = GetTxnid p)) as [-> | Htne].
    + rewrite lookup_insert_eq in Ht. injection Ht as <-.
      split; [exact Hlt0 |]. split; [exact Hout0 |]. split.
      * intros k Hk. apply Hdel in Hk as [Hk Hkne].
        destruct (Hp _ _ Hk) as (Hid & _). congruence.
      * intros t' Ht'. destruct (decide (t' = GetTxnid p)) as [| Hne];
          [assumption |].
        rewrite lookup_insert_ne in Ht' by congruence.
        destruct (Hpr _ _ Ht') as (_ & _ & Hno & _).
        exfalso. exact (Hno _ Hh0).
    + rewrite lookup_insert_ne in Ht by congruence.
      destruct (Hpr _ _ Ht) as (H1 & H2 & H3 & H4).
      split; [exact H1 |]. split; [exact H2 |]. split.
      * intros k Hk. apply Hdel in Hk as [Hk _]. exact (H3 _ Hk).
      * intros t' Ht'. destruct (decide (t' = GetTxnid p)) as [-> | Hne].
        -- rewrite lookup_insert_eq in Ht'. injection Ht' as ->.
           exfalso. exact (H3 _ Hh0).
        -- rewrite lookup_insert_ne in Ht' by congruence. exact (H4 _ Ht').
  - exact Hsnd.
  - intros h Hh. destruct (Hs h Hh) as (H1 & H2 & H3 & H4).
    split; [exact H1 |]. split; [exact H2 |]. split.
    + intros k Hk. apply Hdel in Hk as [Hk _]. exact (H3 _ Hk).
    + intros t. destruct (decide (t = GetTxnid p)) as [-> | Hne].
      * rewrite lookup_insert_eq. intros [= ->]. exact (H3 _ Hh0).
      * rewrite lookup_insert_ne by congruence. apply H4.
Qed.

Lemma tracked_updateRequestOnCommit (txnid : Z) (s : CoordinatorState) :
  tracked s -> tracked (updateRequestOnCommit txnid s).
Proof.
  intros Htr. unfold updateRequestOnCommit.
  destruct (proposals s !! txnid) as [h0 |] eqn:Hh0; [| exact Htr].
  destruct Htr as [Hnd Hq Hp Hpr Hsnd Hs].
  destruct (Hpr _ _ Hh0) as (Hlt0 & Hout0 & Hnp0 & Huniq0).
  assert (Hdel : forall t h, delete txnid (proposals s) !! t = Some h ->
                             proposals s !! t = Some h ∧ t ≠ txnid).
  { intros t h Ht. apply lookup_delete_Some in Ht as [? ?]. auto. }
  split; cbn.
  - exact Hnd.
  - exact Hq.
  - exact Hp.
  - intros t h Ht. apply Hdel in Ht as [Ht _].
    destruct (Hpr _ _ Ht) as (H1 & H2 & H3 & H4).
    split; [exact H1 |]. split; [exact H2 |]. split; [exact H3 |].
    intros t' Ht'. apply Hdel in Ht' as [Ht' _]. exact (H4 _ Ht').
  - apply NoDup_app. split; [exact Hsnd |]. split; [| apply NoDup_singleton].
    intros h Hin Hin'. apply list_elem_of_singleton in Hin' as ->.
    destruct (Hs _ Hin) as (_ & _ & _ & Hno). exact (Hno _ Hh0).
  - intros h Hh. apply elem_of_app in Hh as [Hh | Hh].
    + destruct (Hs h Hh) as (H1 & H2 & H3 & H4).
      split; [exact H1 |]. split; [exact H2 |]. split; [exact H3 |].
      intros t Ht. apply Hdel in Ht as [Ht _]. exact (H4 _ Ht).
    + apply list_elem_of_singleton in Hh as ->.
      split; [exact Hlt0 |]. split; [exact Hout0 |]. split; [exact Hnp0 |].
      intros t Ht. apply Hdel in Ht as [Ht Hne]. exact (Hne (Huniq0 _ Ht)).
Qed.

Lemma reachable_tracked (s : CoordinatorState) :
  reachable self s -> tracked s.
Proof.
  induction 1 as [| s s' _ IH Hstep]; [apply tracked_init |].
  destruct Hstep.
  - apply tracked_NewRequest, IH.
  - apply tracked_dequeueRequest, IH.
  - apply tracked_updateRequestOnNewProposal, IH.
  - apply tracked_updateRequestOnCommit, IH.
Qed.

End RequestTracking.

Section CommitSignal.

Import Manager.

(** C8.  In every state the request tracking can reach, no handle is both
    pending and proposed and no handle has been signalled twice.  When a
    commit arrives for a txnid found in [proposals], the handle filed there
    is signalled, for the first time and once, and leaves [proposals] in
    the same step, so that a second commit for the txnid changes nothing
    and signals no one. *)
Theorem commit_signals_exactly_once (self : string) (s : CoordinatorState) :
  reachable self s ->
  (forall k t h, pendings s !! k = Some h -> proposals s !! t <> Some h) /\
  NoDup (signalled s) /\
  (forall txnid h, proposals s !! txnid = Some h ->
     let s' := updateRequestOnCommit txnid s in
     (h ∉ signalled s) /\
     signalled s' = (signalled s ++ [h])%list /\
     NoDup (signalled s') /\
     proposals s' = delete txnid (proposals s) /\
     proposals s' !! txnid = None /\
     (forall t, proposals s' !! t <> Some h) /\
     pendings s' = pendings s /\
     updateRequestOnCommit txnid s' = s').
Proof.
  intros Hreach. pose proof (reachable_tracked self s Hreach) as Htr.
  split.
  { intros k t h Hk Ht.
    destruct (tr_proposed s Htr _ _ Ht) as (_ & _ & Hno & _).
    exact (Hno _ Hk). }
  split; [exact (tr_signalled_nodup s Htr) |].
  intros txnid h Hh s'.
  pose proof (tracked_updateRequestOnCommit txnid s Htr) as Htr'.
  fold s' in Htr'.
  assert (Hs' : s' = MkState (incomings s) (pendings s)
                             (delete txnid (proposals s))
                             (signalled s ++ [h])%list (allocated s)).
  { unfold s', updateRequestOnCommit. rewrite Hh. reflexivity. }
  split.
  { intros Hin. destruct (tr_signalled s Htr _ Hin) as (_ & _ & _ & Hno).
    exact (Hno _ Hh). }
  split; [rewrite Hs'; reflexivity |].
  split; [exact (tr_signalled_nodup s' Htr') |].
  split; [rewrite Hs'; reflexivity |].
  assert (Hnone : proposals s' !! txnid = None).
  { rewrite Hs'. cbn. apply lookup_delete_eq. }
  split; [exact Hnone |].
  split.
  { intros t Ht.
    assert (Hin : h ∈ signalled s').
    { rewrite Hs'. cbn. apply elem_of_app. right. left. }
    destruct (tr_signalled s' Htr' _ Hin) as (_ & _ & _ & Hno).
    exact (Hno _ Ht). }
  split; [rewrite Hs'; reflexivity |].
  unfold updateRequestOnCommit at 1. rewrite Hnone. reflexivity.
Qed.

Lemma exampleProposed_reachable (self : string) :
  reachable self (exampleProposed self).
Proof.
  unfold exampleProposed.
  apply reach_step with (s := dequeueRequest (NewRequest 42 newCoordinatorState));
    [| apply step_proposal].
  apply reach_step with (s := NewRequest 42 newCoordinatorState);
    [| apply step_dequeue].
  apply reach_step with (s := newCoordinatorState); [| apply step_request].
  apply reach_init.
Defined.

Lemma commit_signals_exactly_once_witness :
  let s := exampleProposed "10.0.0.1:9000" in
  let h := MkHandle 0 42 in
  let s' := updateRequestOnCommit 100 s in
  proposals s !! 100 = Some h /\
  signalled s' = (signalled s ++ [h])%list /\
  proposals s' !! 100 = None /\
  updateRequestOnCommit 100 s' = s'.
Proof.
  intros s h s'.
  assert (Hh : proposals s !! 100 = Some h) by (vm_compute; reflexivity).
  destruct (commit_signals_exactly_once "10.0.0.1:9000" s
              (exampleProposed_reachable "10.0.0.1:9000"))
    as (_ & _ & Hcommit).
  destruct (Hcommit 100 h Hh) as (_ & H1 & _ & _ & H2 & _ & _ & H3).
  auto.
Defined.

End CommitSignal.

(** ** Dataport: further properties of the vbucket bookkeeping *)

Section UuidBookkeeping.

Import Dataport.
Local Open Scope string_scope.

Lemma existsb_sameUuid_left (x : bucketVbno) (l : list bucketVbno) :
  existsb (fun y => sameUuid x y) l = true ↔ x ∈ l.
Proof.
  rewrite existsb_exists. split.
  - intros [y [Hin Hy]]. apply sameUuid_spec in Hy as <-.
    apply list_elem_of_In. exact Hin.
  - intros Hin. exists x. split; [apply list_elem_of_In, Hin |].
    apply sameUuid_spec. reflexivity.
Qed.

Lemma not_finished_iff (x : bucketVbno) (finished : list bucketVbno) :
  existsb (fun finuuid => sameUuid x finuuid) finished = false ↔ x ∉ finished.
Proof.
  rewrite <- existsb_sameUuid_left.
  destruct (existsb _ finished); split; congruence.
Qed.

(** X1.  [delUuids] never fails; its result is the tracked sequence with
    every occurrence of a finished pair taken out and everything else left
    in place: the pairs that are not finished stay in their order, each as
    many times as it was tracked. *)
Theorem delUuids_removes_finished (finished uuids : list bucketVbno) :
  delUuids finished uuids = inr (filter (fun x => x ∉ finished) uuids) ∧
  (∀ x, x ∈ filter (fun x => x ∉ finished) uuids ↔ x ∈ uuids ∧ x ∉ finished) ∧
  (∀ x, x ∉ finished ->
        length (filter (fun y => y = x) (filter (fun x => x ∉ finished) uuids))
        = length (filter (fun y => y = x) uuids)) ∧
  filter (fun x => x ∉ finished) uuids `sublist_of` uuids.
Proof.
  split; [| split; [| split]].
  - unfold delUuids. f_equal. apply list_filter_iff. intros x.
    apply not_finished_iff.
  - intros x. rewrite list_elem_of_filter. tauto.
  - intros x Hx. induction uuids as [| u uuids IH]; [reflexivity |].
    rewrite (filter_cons (fun x => x ∉ finished)).
    destruct (decide (u ∉ finished)) as [Hu | Hu].
    + rewrite !(filter_cons (fun y => y = x)).
      destruct (decide (u = x)); cbn [length]; rewrite IH; reflexivity.
    + rewrite (filter_cons (fun y => y = x)).
      rewrite decide_False by (intros ->; contradiction).
      exact IH.
  - apply sublist_filter.
Qed.

Lemma filter_not_finished_all (finished l : list bucketVbno) :
  (∀ x, x ∈ l -> x ∉ finished) ->
  filter (fun uuid =>
            existsb (fun finuuid => sameUuid uuid finuuid) finished = false) l
  = l.
Proof.
  induction l as [| u l IH]; intros H; [reflexivity |].
  rewrite filter_cons_True by (apply not_finished_iff, H; left).
  rewrite IH; [reflexivity |]. intros x Hx. apply H. right. exact Hx.
Qed.

Lemma filter_not_finished_none (finished l : list bucketVbno) :
  (∀ x, x ∈ l -> x ∈ finished) ->
  filter (fun uuid =>
            existsb (fun finuuid => sameUuid uuid finuuid) finished = false) l
  = [].
Proof.
  induction l as [| u l IH]; intros H; [reflexivity |].
  rewrite filter_cons_False.
  - apply IH. intros x Hx. apply H. right. exact Hx.
  - rewrite not_finished_iff. intros Hn. apply Hn, H. left.
Qed.

(** X2.  Streams that begin on a connection and then all end give back the
    sequence the connection had: when none of the started pairs was tracked,
    [delUuids started] undoes [addUuids started]. *)
Theorem addUuids_delUuids_round_trip (started uuids : list bucketVbno) :
  (∀ x, x ∈ started -> x ∉ uuids) ->
  ∃ l, addUuids started uuids = inr l ∧ delUuids started l = inr uuids.
Proof.
  intros Hfresh. exists (uuids ++ started)%list.
  split; [apply addUuids_fresh, Hfresh |].
  unfold delUuids. rewrite filter_app.
  rewrite filter_not_finished_all, filter_not_finished_none.
  - rewrite app_nil_r. reflexivity.
  - auto.
  - intros x Hx Hs. exact (Hfresh x Hs Hx).
Qed.

Lemma addUuids_delUuids_round_trip_witness :
  ∃ l, addUuids [BV "b" 7; BV "b" 8] [BV "b" 0; BV "c" 7] = inr l ∧
       delUuids [BV "b" 7; BV "b" 8] l = inr [BV "b" 0; BV "c" 7].
Proof.
  apply addUuids_delUuids_round_trip.
  intros x Hx Hu.
  apply elem_of_cons in Hx as [-> | Hx];
    [| apply list_elem_of_singleton in Hx as ->];
    (apply elem_of_cons in Hu as [Hu | Hu];
     [discriminate | apply list_elem_of_singleton in Hu; discriminate]).
Defined.

End UuidBookkeeping.

(** ** Dataport: further properties of the actor *)

Section ActorSteps.

Import Dataport.
Local Open Scope string_scope.

Variable SplitHostPort : string -> option (string * string).

Local Abbreviation hostOf := (Dataport.hostOf SplitHostPort).
Local Abbreviation remoteConnections :=
  (Dataport.remoteConnections SplitHostPort).
Local Abbreviation genServer_step := (Dataport.genServer_step SplitHostPort).

(** X3.  A connection whose remote address does not parse, or is already in the
    connection table, is refused: the new socket is closed, the table and
    the remote-uuid map stay as they were (the connection already known
    under that address is not touched), no reader is started and nothing is
    sent on the sideband. *)
Theorem new_connection_refused (a : actor) (raddr : string) (c : nat) :
  SplitHostPort raddr = None ∨ is_Some (conns (srv a) !! raddr) ->
  genServer_step a (serverCmdNewConnection raddr c)
  = (MkActor (srv a) (remoteUuids a) true, [ConnClose (Some c)]).
Proof.
  intros H. unfold Dataport.genServer_step, handleNewConnection.
  destruct (SplitHostPort raddr) as [hp |] eqn:Hp.
  - destruct H as [H | [nc Hnc]]; [discriminate |]. rewrite Hnc. reflexivity.
  - reflexivity.
Qed.

Lemma uuidsOf_insert (uu : gmap string (list bucketVbno)) (raddr : string)
  (l : list bucketVbno) :
  uuidsOf (<[raddr := l]> uu) raddr = l.
Proof. unfold uuidsOf. rewrite lookup_insert_eq. reflexivity. Qed.

Lemma vbmap_fold (raddr b : string) (vbuckets : list Z)
  (uu : gmap string (list bucketVbno)) :
  let uu' :=
    foldl (fun uu vbno =>
             <[raddr := (uuidsOf uu raddr ++ [BV b (vbno mod 2 ^ 16)])%list]> uu)
          uu vbuckets in
  uuidsOf uu' raddr
  = (uuidsOf uu raddr ++ ((fun vbno => BV b (vbno mod 2 ^ 16)) <$> vbuckets))%list
  ∧ (∀ r, r ≠ raddr -> uu' !! r = uu !! r)
  ∧ (∀ r, is_Some (uu !! r) -> is_Some (uu' !! r)).
Proof.
  revert uu. induction vbuckets as [| v vs IH]; intros uu; cbn zeta.
  - cbn. rewrite app_nil_r. auto.
  - cbn [foldl].
    destruct (IH (<[raddr := (uuidsOf uu raddr ++ [BV b (v mod 2 ^ 16)])%list]> uu))
      as (H1 & H2 & H3).
    split; [| split].
    + rewrite H1, uuidsOf_insert, fmap_cons, <- app_assoc. reflexivity.
    + intros r Hr. rewrite H2 by exact Hr. apply lookup_insert_ne. congruence.
    + intros r Hr. apply H3. apply lookup_insert_is_Some'. right. exact Hr.
Qed.

(** X4.  A vbmap message appends the listed vbuckets (as 16-bit numbers, in the
    order of the message, duplicates included) to the sequence of its
    connection, leaves the sequences of the other connections and the
    connection table alone, and starts the reader. *)
Theorem vbmap_appends_vbuckets (a : actor) (raddr b : string)
  (vbuckets : list Z) :
  ∃ uu',
    genServer_step a (serverCmdVbmap raddr b vbuckets)
    = (MkActor (srv a) uu' true, startWorker raddr (srv a)) ∧
    uuidsOf uu' raddr
    = (uuidsOf (remoteUuids a) raddr
       ++ ((fun vbno => BV b (vbno mod 2 ^ 16)) <$> vbuckets))%list ∧
    (∀ r, r ≠ raddr -> uu' !! r = remoteUuids a !! r).
Proof.
  eexists. split; [reflexivity |].
  destruct (vbmap_fold raddr b vbuckets (remoteUuids a)) as (H1 & H2 & _).
  split; [exact H1 | exact H2].
Qed.

(** An error reported for an address that is not in the connection table
    changes nothing and tells the application nothing, whatever the error
    is. *)
Lemma error_unknown_address (a : actor) (raddr : string) (err : option error) :
  conns (srv a) !! raddr = None ->
  genServer_step a (serverCmdError raddr err)
  = (MkActor (srv a) (remoteUuids a) true, []).
Proof.
  intros Hnone. unfold Dataport.genServer_step, jumboErrorHandler.
  rewrite Hnone. reflexivity.
Qed.

End ActorSteps.

Section FatalError.

Import Dataport.
Local Open Scope string_scope.

Variable SplitHostPort : string -> option (string * string).

Local Abbreviation hostOf := (Dataport.hostOf SplitHostPort).
Local Abbreviation remoteConnections :=
  (Dataport.remoteConnections SplitHostPort).
Local Abbreviation genServer_step := (Dataport.genServer_step SplitHostPort).

Lemma shutdownBvbsOf_fmap (rs : list RestartVbuckets) :
  shutdownBvbsOf ((fun r => MkShutdown (Bucket r) (Vbuckets r)) <$> rs)
  = bvbsOf rs.
Proof. unfold shutdownBvbsOf, bvbsOf. rewrite list_fmap_bind. reflexivity. Qed.

Lemma vbucketsForRemotes_spec (remotes : gmap string (list bucketVbno)) :
  NoDup (sd_Bucket <$> vbucketsForRemotes remotes) ∧
  shutdownBvbsOf (vbucketsForRemotes remotes)
  ≡ₚ concat (map_to_list remotes).*2.
Proof.
  unfold vbucketsForRemotes.
  destruct ((map_to_list remotes).*2) as [| uuids rest].
  - cbn. split; [constructor | reflexivity].
  - rewrite gatherRemotes_cons. cbn [default].
    set (m := foldl addVbucket ∅ (concat (uuids :: rest))).
    assert (Hkeyed : keyedByBucket m)
      by apply foldl_addVbucket_keyed, keyedByBucket_empty.
    split.
    + rewrite <- list_fmap_compose.
      change (sd_Bucket ∘ (fun r => MkShutdown (Bucket r) (Vbuckets r)))
        with Bucket.
      apply keyed_buckets_NoDup, Hkeyed.
    + rewrite shutdownBvbsOf_fmap. unfold m, id.
      rewrite foldl_addVbucket_bvbs by apply keyedByBucket_empty.
      rewrite map_to_list_empty. reflexivity.
Qed.

(** X5.  Any error other than end-of-file or a timeout, reported for a
    connection of the table, closes nothing by itself: the actor asks for
    the server to be closed and sends one [[]ShutdownDataport] event, with
    one entry per bucket, that names exactly the pairs tracked for all the
    remote addresses. *)
Theorem other_error_requests_shutdown (a : actor) (raddr : string)
  (err : error) (nc : netConn) :
  err ≠ io_EOF -> err ≠ NetError true ->
  conns (srv a) !! raddr = Some nc ->
  ∃ ss,
    genServer_step a (serverCmdError raddr (Some err))
    = (MkActor (srv a) (remoteUuids a) true,
       [CloseRequested; Sideband (Shutdown ss)]) ∧
    NoDup (sd_Bucket <$> ss) ∧
    shutdownBvbsOf ss ≡ₚ concat (map_to_list (remoteUuids a)).*2.
Proof.
  intros Heof Htimeout Hnc.
  exists (vbucketsForRemotes (remoteUuids a)).
  split; [| apply vbucketsForRemotes_spec].
  unfold Dataport.genServer_step, jumboErrorHandler. rewrite Hnc.
  destruct err as [| | | | | | [|] |]; try reflexivity; congruence.
Qed.

(** *** Closing every connection *)

Lemma closeEffects_ext (cs cs' : gmap string netConn) (l : list string) :
  (∀ r, r ∈ l -> cs' !! r = cs !! r) ->
  closeEffects cs' l = closeEffects cs l.
Proof.
  unfold closeEffects. induction l as [| r l IH]; intros H; [reflexivity |].
  rewrite !bind_cons. rewrite IH by (intros; apply H; right; assumption).
  rewrite (H r) by left. reflexivity.
Qed.

#[local] Instance closeEffects_Permutation (cs : gmap string netConn) :
  Proper ((≡ₚ) ==> (≡ₚ)) (closeEffects cs).
Proof. intros l k H. unfold closeEffects. rewrite H. reflexivity. Qed.

Lemma closeEffects_app (cs : gmap string netConn) (l k : list string) :
  closeEffects cs (l ++ k) = (closeEffects cs l ++ closeEffects cs k)%list.
Proof. unfold closeEffects. apply bind_app. Qed.

(** The loop of [closeConnections] closes each connection it was given
    once, and only those. *)
Lemma closeConnections_loop_once (fuel : nat) (raddrs : list string)
  (cs : gmap string netConn) (effs : list effect) :
  (length raddrs ≤ fuel)%nat ->
  NoDup raddrs ->
  (∀ r, r ∈ raddrs ↔ is_Some (cs !! r)) ->
  ∃ effs',
    closeConnections_loop SplitHostPort fuel raddrs cs effs
    = ([], ∅, (effs ++ effs')%list) ∧
    effs' ≡ₚ closeEffects cs raddrs.
Proof.
  revert raddrs cs effs.
  induction fuel as [| fuel IH]; intros raddrs cs effs Hlen Hnd Hkeys.
  - destruct raddrs as [| r0 rest]; [| simpl in Hlen; lia].
    assert (Hcs : cs = ∅).
    { apply map_empty. intros r. apply eq_None_not_Some. intros Hs.
      apply Hkeys in Hs. apply elem_of_nil in Hs. exact Hs. }
    subst cs. exists []. rewrite app_nil_r. split; reflexivity.
  - destruct raddrs as [| r0 rest].
    + assert (Hcs : cs = ∅).
      { apply map_empty. intros r. apply eq_None_not_Some. intros Hs.
        apply Hkeys in Hs. apply elem_of_nil in Hs. exact Hs. }
      subst cs. exists []. rewrite app_nil_r. split; reflexivity.
    + assert (Hr0 : is_Some (cs !! r0)) by (apply Hkeys; left).
      cbn [closeConnections_loop].
      rewrite (closeRemoteHost_spec SplitHostPort r0 cs Hr0).
      set (closed := remoteConnections (hostOf r0) cs).
      set (raddrs := r0 :: rest) in *.
      assert (Hr0c : r0 ∈ closed).
      { apply elem_of_remoteConnections. split; [exact Hr0 | reflexivity]. }
      assert (Hclosed : ∀ r, r ∈ closed -> r ∈ raddrs).
      { intros r Hr. apply Hkeys.
        apply elem_of_remoteConnections in Hr as [Hr _]. exact Hr. }
      destruct (IH (ExcludeStrings raddrs closed) (deleteAll closed cs)
                  (effs ++ closeEffects cs closed)%list) as [effs' [Heq Hperm]].
      * unfold ExcludeStrings.
        assert (Hlt : (length (filter (fun s => s ∉ closed) raddrs)
                       < length raddrs)%nat).
        { apply (length_filter_lt _ _ r0); [left | auto]. }
        lia.
      * apply NoDup_filter, Hnd.
      * intros r. unfold ExcludeStrings.
        rewrite list_elem_of_filter, lookup_deleteAll, Hkeys.
        destruct (decide (r ∈ closed)) as [Hc | Hc].
        -- split; [intros [Hn _]; contradiction |].
           intros Hs. apply is_Some_None in Hs. contradiction.
        -- split; [intros [_ Hs]; exact Hs | intros Hs; auto].
      * exists (closeEffects cs closed ++ effs')%list.
        split; [rewrite Heq, <- app_assoc; reflexivity |].
        rewrite Hperm.
        rewrite (closeEffects_ext cs (deleteAll closed cs)).
        2:{ intros r Hr. unfold ExcludeStrings in Hr.
            apply list_elem_of_filter in Hr as [Hn _].
            rewrite lookup_deleteAll, decide_False by exact Hn. reflexivity. }
        rewrite <- closeEffects_app. apply closeEffects_Permutation.
        unfold ExcludeStrings.
        transitivity (filter (fun s => s ∈ closed) raddrs
                      ++ filter (fun s => s ∉ closed) raddrs)%list;
          [| apply filter_app_complement].
        apply Permutation_app_tail.
        apply NoDup_Permutation;
          [apply NoDup_remoteConnections | apply NoDup_filter, Hnd |].
        intros r. rewrite list_elem_of_filter. split; [auto | tauto].
Qed.

Lemma closeConnections_once (cs : gmap string netConn) :
  ∃ effs,
    closeConnections SplitHostPort cs = ([], ∅, effs) ∧
    effs ≡ₚ closeEffects cs (map_to_list cs).*1.
Proof.
  unfold closeConnections.
  destruct (closeConnections_loop_once (length (map_to_list cs).*1)
              (map_to_list cs).*1 cs []) as [effs [Heq Hperm]].
  - lia.
  - apply NoDup_fst_map_to_list.
  - intros r. rewrite list_elem_of_fmap. split.
    + intros [[k nc] [-> Hin]]. apply elem_of_map_to_list in Hin. eauto.
    + intros [nc Hnc]. exists (r, nc). split; [reflexivity |].
      apply elem_of_map_to_list. exact Hnc.
  - exists effs. split; [exact Heq | exact Hperm].
Qed.

(** X6.  On a close message, with the listener still bound, the actor closes the
    listener, then the socket and the worker channel of every connection of
    the table, each once, then the shutdown latch, answers the caller and
    stops; the table is left empty and nothing is sent on the sideband. *)
Theorem close_closes_each_connection_once (a : actor) :
  lis (srv a) = true ->
  ∃ effs,
    genServer_step a serverCmdClose
    = (MkActor (MkServer false ∅ true) (remoteUuids a) false,
       ([ListenerClose] ++ effs ++ [FinchClose; CloseReplied])%list) ∧
    effs ≡ₚ closeEffects (conns (srv a)) (map_to_list (conns (srv a))).*1 ∧
    sidebandEvents ([ListenerClose] ++ effs ++ [FinchClose; CloseReplied]) = [].
Proof.
  intros Hlis.
  destruct (closeConnections_once (conns (srv a))) as [effs [Heq Hperm]].
  exists effs. split; [| split; [exact Hperm |]].
  - unfold Dataport.genServer_step, handleClose. rewrite Hlis, Heq.
    rewrite <- !app_assoc. reflexivity.
  - assert (Hnone : ∀ m, Sideband m ∉ effs).
    { intros m Hin. rewrite Hperm in Hin. unfold closeEffects in Hin.
      apply list_elem_of_bind in Hin as [r [Hin _]].
      apply elem_of_cons in Hin as [Hin | Hin]; [discriminate |].
      apply list_elem_of_singleton in Hin. discriminate. }
    unfold sidebandEvents. rewrite !omap_app. cbn.
    rewrite app_nil_r.
    destruct (omap _ effs) as [| m ms] eqn:E; [reflexivity |].
    exfalso. assert (Hin : m ∈ omap
      (fun e => match e with Sideband m => Some m | _ => None end) effs)
      by (rewrite E; left).
    apply list_elem_of_omap in Hin as [e [He Hm]].
    destruct e; try discriminate. injection Hm as ->. exact (Hnone _ He).
Qed.

End FatalError.

Section ActorInvariant.

Import Dataport.
Local Open Scope string_scope.

Variable SplitHostPort : string -> option (string * string).

Local Abbreviation hostOf := (Dataport.hostOf SplitHostPort).
Local Abbreviation remoteConnections :=
  (Dataport.remoteConnections SplitHostPort).
Local Abbreviation genServer_step := (Dataport.genServer_step SplitHostPort).
Local Abbreviation genServer := (Dataport.genServer SplitHostPort).
Local Abbreviation actorInv := (Dataport.actorInv SplitHostPort).

Lemma jumboErrorHandler_server (raddr : string)
  (uu : gmap string (list bucketVbno)) (err : option error) (s : Server) :
  let s' := (jumboErrorHandler SplitHostPort raddr uu err s).1.2 in
  lis s' = lis s ∧ finch s' = finch s ∧
  ∀ r, is_Some (conns s' !! r) -> is_Some (conns s !! r).
Proof.
  destruct (conns s !! raddr) as [nc |] eqn:Hnc.
  - assert (Hcases : (∃ e, err = Some e ∧ (e = io_EOF ∨ e = NetError true)) ∨
                     (jumboErrorHandler SplitHostPort raddr uu err s).1.2 = s).
    { unfold jumboErrorHandler. rewrite Hnc.
      destruct err as [[| | | | | | [|] |] |]; eauto. }
    destruct Hcases as [[e [-> He]] | Heq]; [| rewrite Heq; auto].
    rewrite (jumboErrorHandler_closeremote SplitHostPort raddr uu e s nc He Hnc).
    cbn. split; [reflexivity |]. split; [reflexivity |].
    intros r Hr. rewrite lookup_deleteAll in Hr.
    destruct (decide (r ∈ _)); [apply is_Some_None in Hr; contradiction | exact Hr].
  - unfold jumboErrorHandler. rewrite Hnc. cbn. auto.
Qed.

Lemma handleClose_bound (s : Server) :
  lis s = true -> (handleClose SplitHostPort s).1 = MkServer false ∅ true.
Proof.
  intros Hlis. destruct (handleClose_spec SplitHostPort s Hlis) as [effs [Heq _]].
  rewrite Heq. reflexivity.
Qed.

Lemma actorInv_stopped (a : actor) :
  lis (srv a) = true ->
  actorInv (MkActor (handleClose SplitHostPort (srv a)).1 (remoteUuids a) false).
Proof.
  intros Hlis. rewrite handleClose_bound by exact Hlis.
  split; cbn.
  - discriminate.
  - reflexivity.
  - intros r Hr. rewrite lookup_empty in Hr. apply is_Some_None in Hr.
    contradiction.
Qed.

Lemma genServer_step_actorInv (a : actor) (msg : serverMessage) :
  actorInv a -> running a = true -> actorInv (genServer_step a msg).1.
Proof.
  intros [Hrun Hstop Hconns] Hr. destruct (Hrun Hr) as [Hlis Hfin].
  destruct msg as [raddr c | raddr b vbuckets | raddr started finished
                  | raddr err |]; unfold Dataport.genServer_step.
  - unfold handleNewConnection.
    destruct (SplitHostPort raddr) as [hp |] eqn:Hp;
      [destruct (conns (srv a) !! raddr) as [nc |] eqn:Hnc |]; cbn.
    + split; cbn; auto. discriminate.
    + split; cbn; [auto | discriminate |].
      intros r Hin. destruct (decide (r = raddr)) as [-> | Hne].
      * rewrite Hp, lookup_insert_eq. eauto.
      * rewrite lookup_insert_ne in Hin by congruence.
        rewrite lookup_insert_ne by congruence. auto.
    + split; cbn; auto. discriminate.
  - cbn. destruct (vbmap_fold raddr b vbuckets (remoteUuids a)) as (_ & _ & H3).
    split; cbn; [auto | discriminate |].
    intros r Hin. destruct (Hconns r Hin) as [H1 H2]. split; [exact H1 |].
    apply H3, H2.
  - assert (Hpanic : actorInv (recoverPanic SplitHostPort a).1).
    { unfold recoverPanic.
      destruct (handleClose SplitHostPort (srv a)) as [s effs] eqn:E.
      cbn. replace s with (handleClose SplitHostPort (srv a)).1
        by (rewrite E; reflexivity).
      apply actorInv_stopped, Hlis. }
    destruct (if (0 <? length started)%nat then _ else _) as [e | uuids];
      [exact Hpanic |].
    destruct (if (0 <? length finished)%nat then _ else _) as [e | uuids'];
      [exact Hpanic |].
    split; cbn; [auto | discriminate |].
    intros r Hin. destruct (Hconns r Hin) as [H1 H2]. split; [exact H1 |].
    apply lookup_insert_is_Some'. right. exact H2.
  - pose proof (jumboErrorHandler_server raddr (remoteUuids a) err (srv a))
      as Hj. cbv zeta in Hj.
    destruct (jumboErrorHandler SplitHostPort raddr (remoteUuids a) err (srv a))
      as [[m s'] effs]. cbn in *. destruct Hj as (Hl & Hf & Hc).
    split; cbn; [intros _; split; congruence | discriminate |].
    intros r Hin. apply Hconns, Hc, Hin.
  - destruct (handleClose SplitHostPort (srv a)) as [s effs] eqn:E. cbn.
    replace s with (handleClose SplitHostPort (srv a)).1
      by (rewrite E; reflexivity).
    apply actorInv_stopped, Hlis.
Qed.

Lemma genServer_actorInv (msgs : list serverMessage) (a : actor) :
  actorInv a -> actorInv (genServer a msgs).1.
Proof.
  revert a. induction msgs as [| msg rest IH]; intros a Hinv; [exact Hinv |].
  cbn [Dataport.genServer]. destruct (running a) eqn:Hr; [| exact Hinv].
  pose proof (genServer_step_actorInv a msg Hinv Hr) as Hstep.
  destruct (genServer_step a msg) as [a' effs].
  specialize (IH a' Hstep).
  destruct (genServer a' rest) as [a'' effs']. exact IH.
Qed.

Lemma NewServer_actorInv : actorInv NewServer.
Proof.
  split; cbn; [auto | discriminate |].
  intros r Hr. rewrite lookup_empty in Hr. apply is_Some_None in Hr.
  contradiction.
Qed.

(** X7.  Whatever messages the actor of a new server has handled: while it runs
    the listener is bound and the shutdown latch open; once it has stopped
    the listener is gone, the latch closed and the connection table empty;
    and every address of the connection table parses as host:port and has
    a sequence in the remote-uuid map. *)
Theorem genServer_keeps_invariant (msgs : list serverMessage) :
  let a := (genServer NewServer msgs).1 in
  (running a = true -> lis (srv a) = true ∧ finch (srv a) = false) ∧
  (running a = false -> srv a = MkServer false ∅ true) ∧
  (∀ r, is_Some (conns (srv a) !! r) ->
        is_Some (SplitHostPort r) ∧ is_Some (remoteUuids a !! r)).
Proof.
  intros a.
  destruct (genServer_actorInv msgs NewServer NewServer_actorInv)
    as [H1 H2 H3].
  auto.
Qed.

(** X8.  The listener reports its own death with an empty remote address.  When
    the empty string does not parse as an address, that message is dropped
    by the actor in every state it can be in: the server keeps running with
    all its connections and the application is told nothing. *)
Theorem daemon_exit_is_dropped (msgs : list serverMessage) :
  SplitHostPort "" = None ->
  let a := (genServer NewServer msgs).1 in
  genServer_step a daemonExitMessage
  = (MkActor (srv a) (remoteUuids a) true, []).
Proof.
  intros Hempty a. apply error_unknown_address.
  destruct (conns (srv a) !! "") as [nc |] eqn:E; [| reflexivity].
  destruct (genServer_actorInv msgs NewServer NewServer_actorInv)
    as [_ _ H3].
  destruct (H3 "" (ex_intro _ nc E)) as [[hp Hp] _]. congruence.
Qed.

End ActorInvariant.

Section ActorStepExamples.

Import Dataport.
Local Open Scope string_scope.

Lemma new_connection_refused_witness :
  genServer_step net_SplitHostPort exampleActor
    (serverCmdNewConnection "10.0.0.1:5000" 9)
  = (MkActor (srv exampleActor) (remoteUuids exampleActor) true,
     [ConnClose (Some 9%nat)]).
Proof.
  apply new_connection_refused. right. vm_compute. eauto.
Defined.

Lemma other_error_requests_shutdown_witness :
  ∃ ss,
    genServer_step net_SplitHostPort exampleActor
      (serverCmdError "10.0.0.2:5000" (Some ErrorPayload))
    = (MkActor (srv exampleActor) (remoteUuids exampleActor) true,
       [CloseRequested; Sideband (Shutdown ss)]) ∧
    NoDup (sd_Bucket <$> ss) ∧
    shutdownBvbsOf ss ≡ₚ concat (map_to_list (remoteUuids exampleActor)).*2.
Proof.
  apply (other_error_requests_shutdown net_SplitHostPort exampleActor
           "10.0.0.2:5000" ErrorPayload (NetConn (Some 3%nat) false)).
  - discriminate.
  - discriminate.
  - vm_compute. reflexivity.
Defined.

Lemma close_closes_each_connection_once_witness :
  ∃ effs,
    genServer_step net_SplitHostPort exampleActor serverCmdClose
    = (MkActor (MkServer false ∅ true) (remoteUuids exampleActor) false,
       ([ListenerClose] ++ effs ++ [FinchClose; CloseReplied])%list) ∧
    effs ≡ₚ closeEffects (conns (srv exampleActor))
              (map_to_list (conns (srv exampleActor))).*1 ∧
    sidebandEvents ([ListenerClose] ++ effs ++ [FinchClose; CloseReplied]) = [].
Proof.
  apply close_closes_each_connection_once. vm_compute. reflexivity.
Defined.

Lemma daemon_exit_is_dropped_witness :
  let a := (genServer net_SplitHostPort NewServer
              [serverCmdNewConnection "10.0.0.1:5000" 1;
               serverCmdVbmap "10.0.0.1:5000" "b" [0; 1]%Z]).1 in
  genServer_step net_SplitHostPort a daemonExitMessage
  = (MkActor (srv a) (remoteUuids a) true, []).
Proof.
  apply (daemon_exit_is_dropped net_SplitHostPort). vm_compute. reflexivity.
Defined.

End ActorStepExamples.

Section SidebandCount.

Import Dataport.
Local Open Scope string_scope.

Variable SplitHostPort : string -> option (string * string).

Local Abbreviation genServer_step := (Dataport.genServer_step SplitHostPort).
Local Abbreviation genServer := (Dataport.genServer SplitHostPort).

Lemma sidebandEvents_app (l k : list effect) :
  sidebandEvents (l ++ k) = (sidebandEvents l ++ sidebandEvents k)%list.
Proof. unfold sidebandEvents. apply omap_app. Qed.

Lemma sidebandEvents_closeEffects (cs : gmap string netConn)
  (l : list string) :
  sidebandEvents (closeEffects cs l) = [].
Proof.
  unfold closeEffects. induction l as [| r l IH]; [reflexivity |].
  rewrite bind_cons, sidebandEvents_app, IH. reflexivity.
Qed.

Lemma sidebandEvents_closeRemoteHost (raddr : string)
  (cs : gmap string netConn) :
  sidebandEvents (closeRemoteHost SplitHostPort raddr cs).2 = [].
Proof.
  destruct (cs !! raddr) as [nc |] eqn:Hnc.
  - rewrite closeRemoteHost_spec by eauto. apply sidebandEvents_closeEffects.
  - unfold closeRemoteHost. rewrite Hnc. reflexivity.
Qed.

Lemma sidebandEvents_closeConnections_loop (fuel : nat) (raddrs : list string)
  (cs : gmap string netConn) (effs : list effect) :
  sidebandEvents (closeConnections_loop SplitHostPort fuel raddrs cs effs).2
  = sidebandEvents effs.
Proof.
  revert raddrs cs effs. induction fuel as [| fuel IH]; intros raddrs cs effs;
    [destruct raddrs; reflexivity |].
  destruct raddrs as [| r0 rest]; [reflexivity |].
  cbn [closeConnections_loop].
  pose proof (sidebandEvents_closeRemoteHost r0 cs) as Hc.
  destruct (closeRemoteHost SplitHostPort r0 cs) as [[closed cs'] effs'].
  cbn [snd] in Hc. rewrite IH, sidebandEvents_app, Hc, app_nil_r. reflexivity.
Qed.

Lemma sidebandEvents_handleClose (s : Server) :
  sidebandEvents (handleClose SplitHostPort s).2 = [].
Proof.
  unfold handleClose. destruct (lis s); [| reflexivity].
  pose proof (sidebandEvents_closeConnections_loop
                (length (map_to_list (conns s)).*1)
                (map_to_list (conns s)).*1 (conns s) []) as Hc.
  unfold closeConnections.
  destruct (closeConnections_loop _ _ _ _ _) as [[l cs] effs].
  cbn [snd] in *. rewrite !sidebandEvents_app, Hc. reflexivity.
Qed.

Lemma sidebandEvents_jumbo (raddr : string)
  (uu : gmap string (list bucketVbno)) (err : option error) (s : Server) :
  sidebandEvents (jumboErrorHandler SplitHostPort raddr uu err s).2 = [].
Proof.
  destruct (conns s !! raddr) as [nc |] eqn:Hnc.
  - assert (Hcases : (∃ e, err = Some e ∧ (e = io_EOF ∨ e = NetError true)) ∨
      (jumboErrorHandler SplitHostPort raddr uu err s).2 = [] ∨
      (jumboErrorHandler SplitHostPort raddr uu err s).2 = [CloseRequested]).
    { unfold jumboErrorHandler. rewrite Hnc.
      destruct err as [[| | | | | | [|] |] |]; eauto. }
    destruct Hcases as [[e [-> He]] | [Heq | Heq]];
      [| rewrite Heq; reflexivity | rewrite Heq; reflexivity].
    rewrite (jumboErrorHandler_closeremote SplitHostPort raddr uu e s nc He Hnc).
    apply sidebandEvents_closeEffects.
  - unfold jumboErrorHandler. rewrite Hnc. reflexivity.
Qed.

Lemma genServer_step_sideband (a : actor) (msg : serverMessage) :
  (length (sidebandEvents (genServer_step a msg).2)
   ≤ if isErrorMessage msg then 1 else 0)%nat.
Proof.
  destruct msg as [raddr c | raddr b vbuckets | raddr started finished
                  | raddr err |]; unfold Dataport.genServer_step; cbn [isErrorMessage].
  - destruct (handleNewConnection _ _ _ _) as [s' [e |]]; cbn; lia.
  - cbn. lia.
  - assert (Hpanic : sidebandEvents (recoverPanic SplitHostPort a).2 = []).
    { unfold recoverPanic.
      pose proof (sidebandEvents_handleClose (srv a)) as Hc.
      destruct (handleClose SplitHostPort (srv a)) as [s effs]. exact Hc. }
    destruct (if (0 <? length started)%nat then _ else _) as [e | uuids];
      [rewrite Hpanic; cbn; lia |].
    destruct (if (0 <? length finished)%nat then _ else _) as [e | uuids'];
      [rewrite Hpanic; cbn; lia |].
    cbn. lia.
  - pose proof (sidebandEvents_jumbo raddr (remoteUuids a) err (srv a)) as Hj.
    destruct (jumboErrorHandler _ _ _ _ _) as [[m s'] effs]. cbn [snd] in *.
    rewrite sidebandEvents_app, Hj. destruct m; cbn; lia.
  - pose proof (sidebandEvents_handleClose (srv a)) as Hc.
    destruct (handleClose SplitHostPort (srv a)) as [s effs]. cbn [snd] in *.
    rewrite sidebandEvents_app, Hc. cbn. lia.
Qed.

(** X9.  The application hears from the actor only about errors: over any run,
    the number of messages sent on the sideband is at most the number of
    error messages the actor received; new connections, vbmaps, stream
    begins and ends, and the close request never produce one. *)
Theorem sideband_only_on_errors (a : actor) (msgs : list serverMessage) :
  (length (sidebandEvents (genServer a msgs).2)
   ≤ length (filter (fun msg => isErrorMessage msg = true) msgs))%nat.
Proof.
  revert a. induction msgs as [| msg rest IH]; intros a; [cbn; lia |].
  cbn [Dataport.genServer]. destruct (running a); [| cbn; lia].
  pose proof (genServer_step_sideband a msg) as Hstep.
  destruct (genServer_step a msg) as [a' effs].
  specialize (IH a'). destruct (genServer a' rest) as [a'' effs'].
  cbn [snd] in *. rewrite sidebandEvents_app, length_app.
  rewrite filter_cons. destruct (isErrorMessage msg); cbn.
  - rewrite decide_True by reflexivity. cbn. lia.
  - rewrite decide_False by discriminate. lia.
Qed.

End SidebandCount.

(** ** Dataport: further properties of the reader's scan *)

Section ReaderScanCollects.

Import Dataport.
Local Open Scope string_scope.

Lemma scanKvs_collects (b : string) (vbno : Z) (kvs : list KeyVersions)
  (started finished : list bucketVbno) :
  scanKvs b vbno kvs (started, finished)
  = if forallb (fun kv => match Commands kv with [] => false | _ => true end)
               kvs
    then Some ((started ++ (kv ← kvs;
                            if firstCommandIs StreamBegin kv
                            then [BV b vbno] else []))%list,
               (finished ++ (kv ← kvs;
                             if negb (firstCommandIs StreamBegin kv)
                                && firstCommandIs StreamEnd kv
                             then [BV b vbno] else []))%list)
    else None.
Proof.
  revert started finished.
  induction kvs as [| kv kvs IH]; intros started finished.
  - cbn. rewrite !app_nil_r. reflexivity.
  - cbn [scanKvs forallb]. rewrite !bind_cons.
    destruct (Commands kv) as [| cmd cmds] eqn:Hc.
    + unfold scanKv. rewrite Hc. reflexivity.
    + assert (Hb : firstCommandIs StreamBegin kv = (byte_of cmd =? StreamBegin)%Z)
        by (unfold firstCommandIs; rewrite Hc; reflexivity).
      assert (He : firstCommandIs StreamEnd kv = (byte_of cmd =? StreamEnd)%Z)
        by (unfold firstCommandIs; rewrite Hc; reflexivity).
      rewrite Hb, He. unfold scanKv. rewrite Hc.
      cbn [lookup list_lookup andb].
      destruct (byte_of cmd =? StreamBegin)%Z;
        [| destruct (byte_of cmd =? StreamEnd)%Z];
        cbn [mbind option_bind negb andb];
        rewrite IH, <- ?app_assoc; reflexivity.
Qed.

(** X10.  The scan of a batch panics exactly when some key-version has no
    command.  Otherwise it appends to [started] one pair per key-version
    whose first command is [StreamBegin] and to [finished] one pair per
    key-version whose first command is [StreamEnd], in batch order; only the
    first command of a key-version is looked at. *)
Theorem updateActiveVbuckets_collects (vbs : list VbKeyVersions)
  (started finished : list bucketVbno) :
  updateActiveVbuckets vbs (started, finished)
  = if hasCommands vbs
    then Some ((started ++ begunBy vbs)%list, (finished ++ endedBy vbs)%list)
    else None.
Proof.
  revert started finished.
  induction vbs as [| vb vbs IH]; intros started finished.
  - cbn. rewrite !app_nil_r. reflexivity.
  - cbn [updateActiveVbuckets hasCommands forallb].
    rewrite scanKvs_collects.
    destruct (forallb _ (Kvs vb)); [| reflexivity].
    cbn [mbind option_bind andb]. rewrite IH.
    fold (hasCommands vbs). destruct (hasCommands vbs); [| reflexivity].
    unfold begunBy, endedBy. rewrite !bind_cons, <- !app_assoc. reflexivity.
Qed.

Lemma scheduleKv_inv (all : list KeyVersions) (kv : KeyVersions)
  (se : option KeyVersions * option KeyVersions) :
  kv ∈ all ->
  let good (se : option KeyVersions * option KeyVersions) :=
    (se.1 = None ∨ se.2 = None) ∧
    (∀ k, se.1 = Some k ->
          k ∈ all ∧ ∃ cmd, Commands k = [cmd] ∧ byte_of cmd = StreamBegin) ∧
    (∀ k, se.2 = Some k ->
          k ∈ all ∧ ∃ cmd, Commands k = [cmd] ∧ byte_of cmd = StreamEnd) in
  good se -> good (scheduleKv kv se).
Proof.
  intros Hin good Hse. unfold scheduleKv.
  destruct (Commands kv) as [| cmd [| c2 cmds]] eqn:Hc; try exact Hse.
  destruct (byte_of cmd =? StreamBegin)%Z eqn:Hb.
  - apply Z.eqb_eq in Hb. split; [right; reflexivity |]. split; cbn.
    + intros k [= <-]. split; [exact Hin | eauto].
    + discriminate.
  - destruct (byte_of cmd =? StreamEnd)%Z eqn:He; [| exact Hse].
    apply Z.eqb_eq in He. split; [left; reflexivity |]. split; cbn.
    + discriminate.
    + intros k [= <-]. split; [exact Hin | eauto].
Qed.

(** X11.  [vbucketSchedule] never answers with both a begin and an end: at most
    one of the two results is non-nil, and a non-nil result is a
    key-version of the vbucket whose command list is the single command
    [StreamBegin], respectively [StreamEnd]; key-versions with no command
    or with several commands are skipped. *)
Theorem vbucketSchedule_at_most_one (vb : VbKeyVersions) :
  let se := vbucketSchedule vb in
  (se.1 = None ∨ se.2 = None) ∧
  (∀ k, se.1 = Some k ->
        k ∈ Kvs vb ∧ ∃ cmd, Commands k = [cmd] ∧ byte_of cmd = StreamBegin) ∧
  (∀ k, se.2 = Some k ->
        k ∈ Kvs vb ∧ ∃ cmd, Commands k = [cmd] ∧ byte_of cmd = StreamEnd).
Proof.
  unfold vbucketSchedule.
  assert (Hgen : ∀ kvs se,
    (∀ kv, kv ∈ kvs -> kv ∈ Kvs vb) ->
    ((se.1 = None ∨ se.2 = None) ∧
     (∀ k, se.1 = Some k ->
           k ∈ Kvs vb ∧ ∃ cmd, Commands k = [cmd] ∧ byte_of cmd = StreamBegin) ∧
     (∀ k, se.2 = Some k ->
           k ∈ Kvs vb ∧ ∃ cmd, Commands k = [cmd] ∧ byte_of cmd = StreamEnd)) ->
    let se' := foldl (fun se kv => scheduleKv kv se) se kvs in
    (se'.1 = None ∨ se'.2 = None) ∧
    (∀ k, se'.1 = Some k ->
          k ∈ Kvs vb ∧ ∃ cmd, Commands k = [cmd] ∧ byte_of cmd = StreamBegin) ∧
    (∀ k, se'.2 = Some k ->
          k ∈ Kvs vb ∧ ∃ cmd, Commands k = [cmd] ∧ byte_of cmd = StreamEnd)).
  { induction kvs as [| kv kvs IH]; intros se Hsub Hse; [exact Hse |].
    cbn [foldl]. apply IH; [intros k Hk; apply Hsub; right; exact Hk |].
    apply (scheduleKv_inv (Kvs vb)); [apply Hsub; left | exact Hse]. }
  apply Hgen; [auto |]. cbn. split; [auto |]. split; discriminate.
Qed.

End ReaderScanCollects.

(** ** Admin port: further properties *)

Section AdminportLifecycle.

Import Adminport.
Local Open Scope string_scope.

(** X12.  Between a successful [Start] and the shutdown, [Register] and
    [Unregister] are refused with [ErrorRegisteringRequest] and leave the
    server as it is.  The shutdown closes the listener and the request
    channel and keeps the registry; a second shutdown does nothing (the
    request channel is not closed twice); after it, registering is accepted
    again. *)
Theorem registry_frozen_while_serving (s : httpServer)
  (msg : MessageMarshaller) :
  let s1 := (Start true s).1 in
  Register msg s1 = (s1, Some ErrorRegisteringRequest) ∧
  Unregister msg s1 = (s1, Some ErrorRegisteringRequest) ∧
  messages s1 = messages s ∧
  let s2 := (Stop s1).1 in
  (Stop s1).2 = [ListenerClose; ReqchClose] ∧
  messages s2 = messages s ∧
  Stop s2 = (s2, []) ∧
  Register msg s2
  = (MkServer false (urlPrefix s)
       (<[urlPrefix s ++ Name msg := msg]> (messages s)), None).
Proof. repeat split. Qed.

Variable StatsURLPath : string -> string -> string.
Variable ErrorDecodeRequest : string.


End AdminportLifecycle.

Section AdminportLifecycleExamples.

Import Adminport.
Local Open Scope string_scope.


End AdminportLifecycleExamples.

(** ** Coordinator: further properties *)

Section QuorumIntersection.

Import Manager.

(** X14.  Two quorums of the same ensemble overlap: when [HasQuorum] accepts two
    counts, their sum exceeds the size of the ensemble; a count of the whole
    ensemble is a quorum and a count of zero or less never is. *)
Theorem quorums_intersect (c : Coordinator) (x y : Z) :
  Z.of_nat (length (getPeerUDPAddr c)) <= max_int ->
  (HasQuorum c x = true -> HasQuorum c y = true -> x + y > GetEnsembleSize c) /\
  HasQuorum c (GetEnsembleSize c) = true /\
  (x <= 0 -> HasQuorum c x = false).
Proof.
  intros Hlen. pose proof (GetEnsembleSize_peers c Hlen) as Hsz.
  unfold HasQuorum. cbv zeta. rewrite Hsz.
  set (n := Z.of_nat (length (getPeerUDPAddr c))) in *.
  assert (Hn : 0 <= n) by (unfold n; lia).
  assert (Hhalf : (n + 1) / 2 < 2 ^ 63).
  { apply Z.div_lt_upper_bound; unfold max_int in Hlen; lia. }
  rewrite (int_of_uint64_small _ Hhalf).
  pose proof (Z.div_mod (n + 1) 2 ltac:(lia)) as Hdm.
  pose proof (Z.mod_pos_bound (n + 1) 2 ltac:(lia)) as Hmod.
  repeat split.
  - rewrite !Z.ltb_lt. lia.
  - rewrite Z.ltb_lt. lia.
  - intros Hx. rewrite Z.ltb_ge. lia.
Qed.

Lemma quorums_intersect_witness :
  let c := MkCoordinator (Env "10.0.0.1:9000"
                            ["10.0.0.2:9000"; "10.0.0.3:9000"; "10.0.0.4:9000"])
                         (MkServerConfig None None) 0 0 in
  (HasQuorum c 3 = true -> HasQuorum c 3 = true -> 3 + 3 > GetEnsembleSize c) /\
  HasQuorum c (GetEnsembleSize c) = true /\
  (3 <= 0 -> HasQuorum c 3 = false).
Proof.
  intros c. apply (quorums_intersect c 3 3).
  unfold max_int. simpl. lia.
Defined.

Lemma notifyCurrentEpochs_spec (epochs : list Z) (c : Coordinator) :
  let c' := notifyCurrentEpochs c epochs in
  storedCurrent c' = foldl Z.max (storedCurrent c) epochs /\
  (storedCurrent c < storedCurrent c' ->
   site_winningEpoch c' = storedCurrent c' /\ txn_epoch c' = storedCurrent c') /\
  (storedCurrent c' = storedCurrent c ->
   site_winningEpoch c' = site_winningEpoch c /\ txn_epoch c' = txn_epoch c) /\
  storedAccepted c' = storedAccepted c.
Proof.
  revert c. induction epochs as [| e es IH]; intros c.
  - cbn. repeat split; try reflexivity; lia.
  - unfold notifyCurrentEpochs. cbn [foldl].
    fold (notifyCurrentEpochs (NotifyNewCurrentEpoch true c e).1 es).
    specialize (IH (NotifyNewCurrentEpoch true c e).1). cbv zeta in IH.
    set (c1 := (NotifyNewCurrentEpoch true c e).1) in *.
    set (c' := notifyCurrentEpochs c1 es) in *.
    assert (Hmono : forall (zs : list Z) (z : Z), z <= foldl Z.max z zs).
    { induction zs as [| w ws IHz]; intros z; cbn; [lia |].
      specialize (IHz (Z.max z w)). lia. }
    pose proof (Hmono es (storedCurrent c1)) as Hle.
    assert (Hstep : storedCurrent c1 = Z.max (storedCurrent c) e /\
                    storedAccepted c1 = storedAccepted c /\
                    ((storedCurrent c < e /\ site_winningEpoch c1 = e /\
                      txn_epoch c1 = e) \/
                     (e <= storedCurrent c /\ c1 = c))).
    { unfold c1, NotifyNewCurrentEpoch, storedCurrent, storedAccepted,
        GetCurrentEpoch, GetAcceptedEpoch, SetCurrentEpoch.
      destruct c as [en [acc cur] site txn]. cbn.
      destruct cur as [cur |]; cbn;
        match goal with
        | |- context [?a <? ?b] => destruct (Z.ltb_spec a b)
        end; cbn; repeat split; auto; lia. }
    destruct Hstep as (Hcur & Hacc & Hcase).
    destruct IH as (IH1 & IH2 & IH3 & IH4).
    rewrite <- Hcur.
    split; [exact IH1 |]. split; [| split; [| congruence]].
    + intros Hlt. destruct Hcase as [(He & Hs & Ht) | (He & Heq)].
      * destruct (Z.eq_dec (storedCurrent c') (storedCurrent c1)) as [E | E].
        -- destruct (IH3 E) as [Hs' Ht']. rewrite Hs', Ht', Hs, Ht, E, Hcur.
           split; lia.
        -- apply IH2. lia.
      * rewrite Heq in *. apply IH2. exact Hlt.
    + intros Heq. destruct Hcase as [(He & Hs & Ht) | (He & Hc)].
      * exfalso. lia.
      * rewrite Hc in *. apply IH3. exact Heq.
Qed.

(** X15.  Notified current epochs accumulate to their maximum: after any sequence
    of notifications whose writes succeed, the stored current epoch is the
    largest of the previously stored one and the notified ones; when it
    grew, the election site and the txn-state carry exactly the stored
    epoch, when it did not they are untouched; the accepted epoch is never
    affected. *)
Theorem current_epoch_is_running_maximum (c : Coordinator) (epochs : list Z) :
  let c' := notifyCurrentEpochs c epochs in
  storedCurrent c' = foldl Z.max (storedCurrent c) epochs /\
  (storedCurrent c < storedCurrent c' ->
   site_winningEpoch c' = storedCurrent c' /\ txn_epoch c' = storedCurrent c') /\
  (storedCurrent c' = storedCurrent c ->
   site_winningEpoch c' = site_winningEpoch c /\ txn_epoch c' = txn_epoch c) /\
  storedAccepted c' = storedAccepted c.
Proof. apply notifyCurrentEpochs_spec. Qed.

End QuorumIntersection.

Section RequestLifecycle.

Import Manager.

Variable self : string.

(** X16.  A request that finds the queue empty goes through the four stages in
    four steps: after [NewRequest], the leader's dequeue, its own proposal
    and the commit, its handle has been signalled, once and last, the queue
    is empty again and neither map holds an entry for its request id or its
    txnid. *)
Theorem request_runs_to_signal (s : CoordinatorState) (id txnid : Z) :
  incomings s = [] ->
  updateRequestOnCommit txnid
    (updateRequestOnNewProposal self (MkProposal self id txnid)
       (dequeueRequest (NewRequest id s)))
  = MkState [] (delete id (pendings s)) (delete txnid (proposals s))
            (signalled s ++ [MkHandle (allocated s) id])%list
            (S (allocated s)).
Proof.
  intros Hq. unfold dequeueRequest, NewRequest. cbn [incomings].
  rewrite Hq. cbn [app].
  unfold AddPendingRequest, updateRequestOnNewProposal.
  cbn [GetFid GetReqId GetTxnid pendings proposals signalled allocated
       incomings ReqId].
  rewrite String.eqb_refl, lookup_insert_eq.
  unfold updateRequestOnCommit.
  cbn [pendings proposals signalled allocated incomings].
  rewrite lookup_insert_eq, !delete_insert_eq. reflexivity.
Qed.

Lemma elem_of_handlesOf (m : gmap Z RequestHandle) (h : RequestHandle) :
  h ∈ handlesOf m ↔ ∃ k, m !! k = Some h.
Proof.
  unfold handlesOf. rewrite list_elem_of_fmap. split.
  - intros [[k h'] [-> Hin]]. apply elem_of_map_to_list in Hin. eauto.
  - intros [k Hk]. exists (k, h). split; [reflexivity |].
    apply elem_of_map_to_list. exact Hk.
Qed.

Lemma NoDup_handlesOf (m : gmap Z RequestHandle) :
  (∀ k k' h, m !! k = Some h -> m !! k' = Some h -> k = k') ->
  NoDup (handlesOf m).
Proof.
  intros Hinj. unfold handlesOf.
  apply NoDup_fmap_2_strong; [| apply NoDup_map_to_list].
  intros [k h] [k' h'] Hin Hin' Heq. cbn in Heq. subst h'.
  apply elem_of_map_to_list in Hin, Hin'.
  rewrite (Hinj _ _ _ Hin Hin'). reflexivity.
Qed.

(** X17.  When the serving cycle ends, [cleanupState] signals every handle that
    is still queued, pending or proposed, each once, and none of those
    commits have signalled before: over the cycle no waiter is signalled
    twice, and the queue is left empty. *)
Theorem cleanupState_signals_the_rest (s : CoordinatorState) :
  reachable self s ->
  incomings (cleanupState s).1 = [] ∧
  signalled (cleanupState s).1 = (signalled s ++ (cleanupState s).2)%list ∧
  NoDup (signalled (cleanupState s).1) ∧
  (∀ h, h ∈ (cleanupState s).2 ↔
        h ∈ incomings s ∨ (∃ k, pendings s !! k = Some h) ∨
        (∃ t, proposals s !! t = Some h)).
Proof.
  intros Hreach. pose proof (reachable_tracked self s Hreach) as Htr.
  destruct Htr as [Hnd Hq Hp Hpr Hsnd Hs].
  unfold cleanupState. cbn [fst snd incomings signalled].
  split; [reflexivity |]. split; [reflexivity |]. split.
  - apply NoDup_app. split; [exact Hsnd |]. split.
    + intros h Hh Hin. destruct (Hs h Hh) as (_ & H2 & H3 & H4).
      apply elem_of_app in Hin as [Hin | Hin]; [exact (H2 Hin) |].
      apply elem_of_app in Hin as [Hin | Hin];
        apply elem_of_handlesOf in Hin as [k Hk];
        [exact (H3 _ Hk) | exact (H4 _ Hk)].
    + apply NoDup_app. split; [exact Hnd |]. split.
      * intros h Hh Hin. apply elem_of_app in Hin as [Hin | Hin];
          apply elem_of_handlesOf in Hin as [k Hk].
        -- destruct (Hp _ _ Hk) as (_ & _ & H3). exact (H3 Hh).
        -- destruct (Hpr _ _ Hk) as (_ & H2 & _). exact (H2 Hh).
      * apply NoDup_app. split; [| split].
        -- apply NoDup_handlesOf. intros k k' h Hk Hk'.
           destruct (Hp _ _ Hk) as (<- & _). destruct (Hp _ _ Hk') as (<- & _).
           reflexivity.
        -- intros h Hh Hin. apply elem_of_handlesOf in Hh as [k Hk].
           apply elem_of_handlesOf in Hin as [t Ht].
           destruct (Hpr _ _ Ht) as (_ & _ & H3 & _). exact (H3 _ Hk).
        -- apply NoDup_handlesOf. intros t t' h Ht Ht'.
           destruct (Hpr _ _ Ht) as (_ & _ & _ & H4). symmetry.
           exact (H4 _ Ht').
  - intros h. rewrite !elem_of_app, !elem_of_handlesOf. tauto.
Qed.

End RequestLifecycle.

Section LostHandle.

Import Manager.

Variable self : string.

Lemma lost_step (h : RequestHandle) (s s' : CoordinatorState) :
  lost h s -> step self s s' -> lost h s'.
Proof.
  intros (Hid & Hq & Hp & Hpr & Hs) Hstep. destruct Hstep as [id s | s | p s | t s].
  - unfold NewRequest, lost. cbn. split; [lia |]. split; [| auto].
    intros Hin. apply elem_of_app in Hin as [Hin | Hin]; [exact (Hq Hin) |].
    apply list_elem_of_singleton in Hin. subst h. cbn in Hid. lia.
  - unfold dequeueRequest. destruct (incomings s) as [| h0 rest] eqn:Hinc.
    + unfold lost. rewrite Hinc. auto.
    + apply not_elem_of_cons in Hq as [Hne Hq].
      unfold AddPendingRequest, lost. cbn. split; [exact Hid |].
      split; [exact Hq |]. split; [| auto].
      intros k. destruct (decide (k = ReqId h0)) as [-> | Hk].
      * rewrite lookup_insert_eq. congruence.
      * rewrite lookup_insert_ne by congruence. apply Hp.
  - unfold updateRequestOnNewProposal.
    destruct (String.eqb (GetFid p) self); [| unfold lost; auto].
    destruct (pendings s !! GetReqId p) as [h0 |] eqn:Hh0; [| unfold lost; auto].
    unfold lost. cbn. split; [exact Hid |]. split; [exact Hq |]. split; [| split].
    + intros k Hk. apply lookup_delete_Some in Hk as [_ Hk]. exact (Hp _ Hk).
    + intros t. destruct (decide (t = GetTxnid p)) as [-> | Ht].
      * rewrite lookup_insert_eq. intros [= ->]. exact (Hp _ Hh0).
      * rewrite lookup_insert_ne by congruence. apply Hpr.
    + exact Hs.
  - unfold updateRequestOnCommit.
    destruct (proposals s !! t) as [h0 |] eqn:Hh0; [| unfold lost; auto].
    unfold lost. cbn. split; [exact Hid |]. split; [exact Hq |].
    split; [exact Hp |]. split.
    + intros t' Ht'. apply lookup_delete_Some in Ht' as [_ Ht'].
      exact (Hpr _ Ht').
    + intros Hin. apply elem_of_app in Hin as [Hin | Hin]; [exact (Hs Hin) |].
      apply list_elem_of_singleton in Hin. subst h0. exact (Hpr _ Hh0).
Qed.

Lemma lost_forever (h : RequestHandle) (s s' : CoordinatorState) :
  lost h s -> rtc (step self) s s' -> lost h s'.
Proof.
  intros Hlost Hsteps. induction Hsteps as [| s s1 s2 Hstep _ IH];
    [exact Hlost |].
  apply IH. exact (lost_step h s s1 Hlost Hstep).
Qed.

(** X18.  [pendings] has one slot per request id.  When the leader dequeues a
    request whose id is the id of a request that is still pending, the older
    handle is replaced and from then on is at none of the places the
    coordinator looks at: whatever happens next in the serving cycle, no
    commit signals it, and [cleanupState] does not signal it either. *)
Theorem reused_request_id_loses_waiter (s : CoordinatorState)
  (h h0 : RequestHandle) (rest : list RequestHandle) :
  reachable self s ->
  incomings s = h :: rest ->
  pendings s !! ReqId h = Some h0 ->
  h0 ≠ h ∧
  pendings (dequeueRequest s) !! ReqId h = Some h ∧
  ∀ s', rtc (step self) (dequeueRequest s) s' ->
        (h0 ∉ signalled s') ∧ (h0 ∉ (cleanupState s').2) ∧
        (h0 ∉ signalled (cleanupState s').1).
Proof.
  intros Hreach Hinc Hh0.
  pose proof (reachable_tracked self s Hreach) as [Hnd Hq Hp Hpr Hsnd Hs].
  destruct (Hp _ _ Hh0) as (Hid0 & Hlt0 & Hout0).
  assert (Hne : h0 ≠ h).
  { intros ->. apply Hout0. rewrite Hinc. left. }
  split; [exact Hne |].
  assert (Hlost : lost h0 (dequeueRequest s)).
  { unfold dequeueRequest. rewrite Hinc. unfold AddPendingRequest, lost. cbn.
    split; [exact Hlt0 |]. split.
    - intros Hin. apply Hout0. rewrite Hinc. right. exact Hin.
    - split; [| split].
      + intros k. destruct (decide (k = ReqId h)) as [-> | Hk].
        * rewrite lookup_insert_eq. congruence.
        * rewrite lookup_insert_ne by congruence. intros Hk0.
          destruct (Hp _ _ Hk0) as (Hid & _). congruence.
      + intros t Ht. destruct (Hpr _ _ Ht) as (_ & _ & Hno & _).
        exact (Hno _ Hh0).
      + intros Hin. destruct (Hs _ Hin) as (_ & _ & Hno & _).
        exact (Hno _ Hh0). }
  split.
  { unfold dequeueRequest. rewrite Hinc. unfold AddPendingRequest. cbn.
    apply lookup_insert_eq. }
  intros s' Hsteps.
  destruct (lost_forever h0 _ s' Hlost Hsteps) as (_ & Hq' & Hp' & Hpr' & Hs').
  assert (Hterm : h0 ∉ (cleanupState s').2).
  { unfold cleanupState. cbn [snd]. rewrite !elem_of_app, !elem_of_handlesOf.
    intros [Hin | [[k Hk] | [t Ht]]];
      [exact (Hq' Hin) | exact (Hp' _ Hk) | exact (Hpr' _ Ht)]. }
  split; [exact Hs' |]. split; [exact Hterm |].
  unfold cleanupState in *. cbn [fst snd signalled] in *.
  rewrite elem_of_app. tauto.
Qed.

End LostHandle.

Section RequestExamples.

Import Manager.

Lemma request_runs_to_signal_witness :
  updateRequestOnCommit 100
    (updateRequestOnNewProposal "10.0.0.1:9000"
       (MkProposal "10.0.0.1:9000" 42 100)
       (dequeueRequest (NewRequest 42 newCoordinatorState)))
  = MkState [] (delete 42 ∅) (delete 100 ∅) ([] ++ [MkHandle 0 42])%list 1.
Proof.
  apply (request_runs_to_signal "10.0.0.1:9000" newCoordinatorState 42 100).
  reflexivity.
Defined.

Lemma cleanupState_signals_the_rest_witness :
  let s := exampleProposed "10.0.0.1:9000" in
  incomings (cleanupState s).1 = [] ∧
  signalled (cleanupState s).1 = (signalled s ++ (cleanupState s).2)%list ∧
  NoDup (signalled (cleanupState s).1) ∧
  (∀ h, h ∈ (cleanupState s).2 ↔
        h ∈ incomings s ∨ (∃ k, pendings s !! k = Some h) ∨
        (∃ t, proposals s !! t = Some h)).
Proof.
  intros s.
  apply (cleanupState_signals_the_rest "10.0.0.1:9000" s).
  apply exampleProposed_reachable.
Defined.

Lemma exampleReused_reachable (self : string) : reachable self exampleReused.
Proof.
  unfold exampleReused.
  apply reach_step with (s := dequeueRequest (NewRequest 42 newCoordinatorState));
    [| apply step_request].
  apply reach_step with (s := NewRequest 42 newCoordinatorState);
    [| apply step_dequeue].
  apply reach_step with (s := newCoordinatorState); [| apply step_request].
  apply reach_init.
Defined.

Lemma reused_request_id_loses_waiter_witness :
  let s := exampleReused in
  let h := MkHandle 1 42 in
  let h0 := MkHandle 0 42 in
  h0 ≠ h ∧
  pendings (dequeueRequest s) !! ReqId h = Some h ∧
  ∀ s', rtc (step "10.0.0.1:9000") (dequeueRequest s) s' ->
        (h0 ∉ signalled s') ∧ (h0 ∉ (cleanupState s').2) ∧
        (h0 ∉ signalled (cleanupState s').1).
Proof.
  intros s h h0.
  apply (reused_request_id_loses_waiter "10.0.0.1:9000" s h h0 []).
  - apply exampleReused_reachable.
  - reflexivity.
  - vm_compute. reflexivity.
Defined.

End RequestExamples.

(** ** Compaction daemon: further properties *)

Section CompactionModes.

Import Indexer.
Local Open Scope string_scope.
Local Open Scope Z_scope.

(** X19.  In full mode, whatever the letter case of the configured mode, the
    answer depends on the statistics alone: compaction is needed exactly
    when the disk size (as an unsigned number) exceeds [min_size] and the
    fragmentation reaches [min_frag]; the clock, the interval and the days
    of the week play no part. *)
Theorem needsCompaction_full_mode (now : Time) (stats : IndexStorageStats)
  (config : Config) :
  ToLower (compaction_mode config) = "full" ->
  needsCompaction now stats config
  = (min_size config <? uint64_wrap (DiskSize stats))
    && FragmentationAtLeast stats (min_frag config).
Proof.
  intros Hmode. unfold needsCompaction. rewrite Hmode.
  change (String.eqb "full" "full") with true. cbn iota.
  destruct (min_size config <? uint64_wrap (DiskSize stats));
    destruct (FragmentationAtLeast stats (min_frag config)); reflexivity.
Qed.

Lemma needsCompaction_full_mode_witness :
  needsCompaction (MkTime 3 0 Sunday) (MkStats (2 ^ 30) (fun t => t <=? 40))
    (MkConfig "Full" 1024 30 "02:00,04:00" [])
  = (1024 <? uint64_wrap (2 ^ 30)) && (30 <=? 40).
Proof.
  apply (needsCompaction_full_mode (MkTime 3 0 Sunday)
           (MkStats (2 ^ 30) (fun t => t <=? 40))
           (MkConfig "Full" 1024 30 "02:00,04:00" [])).
  vm_compute. reflexivity.
Defined.

Lemma scanDays_existsb (today : string) (days : list string) (b : bool) :
  match scanDays today days b with
  | inl r => r
  | inr _ => false
  end
  = existsb (fun day => String.eqb (ToLower (TrimSpace day)) today) days.
Proof.
  revert b. induction days as [| day rest IH]; intros b; [reflexivity |].
  cbn [scanDays existsb].
  destruct (String.eqb (ToLower (TrimSpace day)) today); [reflexivity |].
  apply IH.
Qed.

Lemma needsCompaction_circular (now : Time) (stats : IndexStorageStats)
  (config : Config) :
  ToLower (compaction_mode config) <> "full" ->
  needsCompaction now stats config
  = inInterval now (interval config) && dayConfigured now (days_of_week config).
Proof.
  intros Hmode. unfold needsCompaction.
  destruct (String.eqb_spec (ToLower (compaction_mode config)) "full")
    as [E | _]; [contradiction |].
  rewrite scanDays_existsb. fold (dayConfigured now (days_of_week config)).
  unfold inInterval.
  destruct (String.eqb (interval config) "00:00,00:00"); cbn [negb];
    [reflexivity |].
  destruct ((sc_n (Sscanf_interval (interval config)) =? 4)
            && negb (sc_err (Sscanf_interval (interval config))));
    [| reflexivity].
  fold (startMinute (Sscanf_interval (interval config))).
  fold (endMinute (Sscanf_interval (interval config))).
  set (r := Sscanf_interval (interval config)).
  set (m := Clock_min now + Clock_hour now * 60).
  destruct (Z.ltb_spec m (startMinute r));
    destruct (Z.ltb_spec (endMinute r) m);
    destruct (Z.leb_spec (startMinute r) m);
    destruct (Z.leb_spec m (endMinute r));
    cbn; try reflexivity; lia.
Qed.



(** X21.  Two configurations of the circular mode, in ASCII text, never
    compact, at any time and whatever the statistics: an empty list of days,
    and an interval whose start minute, as the code computes it, lies after
    its end minute (as "22:00,02:00": the interval does not wrap around
    midnight). *)
Theorem circular_mode_never_compacts (stats : IndexStorageStats)
  (config : Config) :
  asciiConfig config = true ->
  ToLower (compaction_mode config) <> "full" ->
  days_of_week config = [] \/
  (interval config <> "00:00,00:00" /\
   sc_n (Sscanf_interval (interval config)) = 4 /\
   sc_err (Sscanf_interval (interval config)) = false /\
   endMinute (Sscanf_interval (interval config))
   < startMinute (Sscanf_interval (interval config))) ->
  forall now, needsCompaction now stats config = false.
Proof.
  intros _ Hmode Hcase now. rewrite needsCompaction_circular by exact Hmode.
  destruct Hcase as [Hdays | (Hint & Hn & Herr & Hwrap)].
  - rewrite Hdays. cbn. apply andb_false_r.
  - unfold inInterval.
    destruct (String.eqb_spec (interval config) "00:00,00:00") as [E | _];
      [contradiction |].
    rewrite Hn, Herr. cbn [negb andb Z.eqb Pos.eqb].
    set (r := Sscanf_interval (interval config)) in *.
    set (m := Clock_min now + Clock_hour now * 60).
    destruct (Z.leb_spec (startMinute r) m);
      destruct (Z.leb_spec m (endMinute r));
      cbn; try reflexivity; lia.
Qed.

Lemma circular_mode_never_compacts_witness :
  needsCompaction (MkTime 23 30 Sunday) (MkStats (2 ^ 40) (fun _ => true))
    (MkConfig "circular" 0 0 "22:00,02:00"
       ["Sunday"; "Monday"; "Tuesday"; "Wednesday"; "Thursday"; "Friday";
        "Saturday"]) = false.
Proof.
  apply circular_mode_never_compacts.
  - vm_compute. reflexivity.
  - vm_compute. discriminate.
  - right. vm_compute. repeat split; discriminate.
Defined.

End CompactionModes.

(** ** Coordinator: placing a new index *)

Section Placement.

Import Manager.

Lemma foldl_over_bind {A B C : Type} (f : A -> C -> A) (g : B -> list C)
  (l : list B) (a : A) :
  foldl f a (l ≫= g) = foldl (fun a x => foldl f a (g x)) a l.
Proof.
  revert a. induction l as [| x l IH]; intros a; [reflexivity |].
  rewrite bind_cons, foldl_app. cbn [foldl]. apply IH.
Qed.

Lemma foldl_over_fmap {A B C : Type} (f : A -> C -> A) (g : B -> C)
  (l : list B) (a : A) :
  foldl f a (g <$> l) = foldl (fun a x => f a (g x)) a l.
Proof.
  revert a. induction l as [| x l IH]; intros a; [reflexivity |].
  cbn. apply IH.
Qed.

Lemma foldl_ext {A B : Type} (f g : A -> B -> A) (l : list B) (a : A) :
  (forall a x, f a x = g a x) -> foldl f a l = foldl g a l.
Proof.
  intros Hfg. revert a. induction l as [| x l IH]; intros a; [reflexivity |].
  cbn. rewrite Hfg. apply IH.
Qed.

Lemma countTopology_sliceHosts (ic : gmap string Z) (t : IndexTopology) :
  countTopology ic t = foldl countSlice ic (sliceHosts t).
Proof.
  unfold countTopology, sliceHosts.
  rewrite foldl_over_bind. symmetry. apply foldl_ext. intros ic1 d.
  rewrite foldl_over_bind. apply foldl_ext. intros ic2 i.
  rewrite foldl_over_bind. apply foldl_ext. intros ic3 p.
  rewrite foldl_over_fmap. reflexivity.
Qed.

Lemma countKeys_allSliceHosts (view : placementView) (keys : list string)
  (ic : gmap string Z) :
  (forall key, key ∈ keys -> is_Some (GetTopologyByKey view key)) ->
  countKeys view keys ic
  = Some (foldl countSlice ic (allSliceHosts view keys)).
Proof.
  revert ic. induction keys as [| key rest IH]; intros ic Hread;
    [reflexivity |].
  cbn [countKeys]. unfold allSliceHosts. rewrite bind_cons.
  destruct (Hread key ltac:(left)) as [t Ht]. rewrite Ht.
  rewrite foldl_app, <- countTopology_sliceHosts.
  apply IH. intros k Hk. apply Hread. right. exact Hk.
Qed.

Lemma load_cons (x : string) (hosts : list string) (h : string) :
  load (x :: hosts) h = (if decide (x = h) then 1 else 0) + load hosts h.
Proof.
  unfold load. rewrite filter_cons.
  destruct (decide (x = h)); cbn [length]; lia.
Qed.

Lemma load_bounds (hosts : list string) (h : string) :
  0 <= load hosts h <= Z.of_nat (length hosts).
Proof.
  unfold load. pose proof (length_filter (fun x => x = h) hosts). lia.
Qed.

Lemma countSlices_lookup (hosts : list string) (ic : gmap string Z)
  (h : string) :
  foldl countSlice ic hosts !! h = (fun c => c + load hosts h) <$> (ic !! h).
Proof.
  revert ic. induction hosts as [| x hosts IH]; intros ic.
  - cbn. unfold load. cbn. destruct (ic !! h); cbn; [f_equal; lia | reflexivity].
  - cbn [foldl]. rewrite IH, load_cons. unfold countSlice.
    destruct (decide (x = h)) as [-> | Hne].
    + destruct (ic !! h) as [c |] eqn:E.
      * rewrite lookup_insert_eq. cbn. f_equal. lia.
      * rewrite E. reflexivity.
    + destruct (ic !! x) as [c |] eqn:E.
      * rewrite lookup_insert_ne by exact Hne.
        destruct (ic !! h); cbn; [f_equal; lia | reflexivity].
      * destruct (ic !! h); cbn; [f_equal; lia | reflexivity].
Qed.

Lemma zeroed_lookup (peers : list string) (m : gmap string Z) (h : string) :
  foldl (fun ic host => <[host := 0]> ic) m peers !! h
  = if decide (h ∈ peers) then Some 0 else m !! h.
Proof.
  revert m. induction peers as [| p peers IH]; intros m.
  - cbn. rewrite decide_False by apply not_elem_of_nil. reflexivity.
  - cbn [foldl]. rewrite IH.
    destruct (decide (h ∈ peers)) as [Hin | Hnin].
    + rewrite decide_True by (right; exact Hin). reflexivity.
    + destruct (decide (h = p)) as [-> | Hne].
      * rewrite decide_True by left. apply lookup_insert_eq.
      * rewrite decide_False
          by (intros Hc; apply elem_of_cons in Hc as [? | ?]; contradiction).
        apply lookup_insert_ne. congruence.
Qed.

Lemma pickLeast_fold (l : list (string * Z)) (m : Z) (ch : string) :
  let r := foldl (fun '(minCount, chosenHost) '(host, count) =>
                    if count <? minCount then (count, host)
                    else (minCount, chosenHost)) (m, ch) l in
  r.1 <= m /\
  (forall h c, (h, c) ∈ l -> r.1 <= c) /\
  (r = (m, ch) \/ (r.2, r.1) ∈ l).
Proof.
  revert m ch. induction l as [| [h c] l IH]; intros m ch; cbn zeta.
  - cbn. split; [lia |]. split; [| auto].
    intros h c Hin. apply elem_of_nil in Hin. contradiction.
  - cbn [foldl]. destruct (Z.ltb_spec c m) as [Hlt | Hge].
    + destruct (IH c h) as (H1 & H2 & H3). split; [lia |]. split.
      * intros h' c' Hin. apply elem_of_cons in Hin as [[= -> ->] | Hin];
          [exact H1 | exact (H2 _ _ Hin)].
      * right. destruct H3 as [-> | H3]; [left | right; exact H3].
    + destruct (IH m ch) as (H1 & H2 & H3). split; [exact H1 |]. split.
      * intros h' c' Hin. apply elem_of_cons in Hin as [[= -> ->] | Hin];
          [lia | exact (H2 _ _ Hin)].
      * destruct H3 as [H3 | H3]; [left; exact H3 | right; right; exact H3].
Qed.

Lemma pickLeast_spec (ic : gmap string Z) (h0 : string) (c0 : Z) :
  ic !! h0 = Some c0 -> c0 < MaxInt32 ->
  ic !! (pickLeast ic).2 = Some (pickLeast ic).1 /\
  forall h c, ic !! h = Some c -> (pickLeast ic).1 <= c.
Proof.
  intros Hh0 Hc0. unfold pickLeast.
  destruct (pickLeast_fold (map_to_list ic) MaxInt32 EmptyString)
    as (H1 & H2 & H3). cbv zeta in *.
  set (r := foldl _ _ (map_to_list ic)) in *.
  assert (Hall : forall h c, ic !! h = Some c -> r.1 <= c).
  { intros h c Hc. apply (H2 h c). apply elem_of_map_to_list. exact Hc. }
  split; [| exact Hall].
  destruct H3 as [Heq | Hin].
  - exfalso. specialize (Hall _ _ Hh0). rewrite Heq in Hall. cbn in Hall. lia.
  - apply elem_of_map_to_list in Hin. exact Hin.
Qed.

(** X22.  With the global topology, the local host, the peers and every listed
    bucket topology readable, and fewer than [MaxInt32] slices in all, the
    host chosen for a new index is the local host or a peer, and none of
    them carries fewer slices than it does. *)
Theorem findNextAvailNodeForIndex_least_loaded (view : placementView)
  (globalTop : GlobalTopology) (host : string) (peers : list string) :
  GetGlobalTopology view = Some globalTop ->
  getLocalHost view = Some host ->
  getPeerHost view = Some peers ->
  (forall key, key ∈ TopologyKeys globalTop ->
               is_Some (GetTopologyByKey view key)) ->
  Z.of_nat (length (allSliceHosts view (TopologyKeys globalTop))) < MaxInt32 ->
  exists chosen,
    findNextAvailNodeForIndex view = Some chosen /\
    chosen ∈ host :: peers /\
    forall h, h ∈ host :: peers ->
      load (allSliceHosts view (TopologyKeys globalTop)) chosen
      <= load (allSliceHosts view (TopologyKeys globalTop)) h.
Proof.
  intros Hg Hl Hp Hread Hsmall.
  unfold findNextAvailNodeForIndex. rewrite Hg, Hl, Hp.
  rewrite countKeys_allSliceHosts by exact Hread.
  set (hosts := allSliceHosts view (TopologyKeys globalTop)) in *.
  set (ic0 := foldl (fun ic host => <[host := 0]> ic)
                    (<[host := 0]> (∅ : gmap string Z)) peers).
  set (ic := foldl countSlice ic0 hosts).
  assert (Hic0 : forall h, ic0 !! h
                 = if decide (h ∈ host :: peers) then Some 0 else None).
  { intros h. unfold ic0. rewrite zeroed_lookup.
    destruct (decide (h ∈ peers)) as [Hin | Hnin].
    - rewrite decide_True by (right; exact Hin). reflexivity.
    - destruct (decide (h = host)) as [-> | Hne].
      + rewrite decide_True by left. apply lookup_insert_eq.
      + rewrite decide_False
          by (intros Hc; apply elem_of_cons in Hc as [? | ?]; contradiction).
        rewrite lookup_insert_ne by congruence. apply lookup_empty. }
  assert (Hic : forall h, ic !! h
                = if decide (h ∈ host :: peers) then Some (load hosts h)
                  else None).
  { intros h. unfold ic. rewrite countSlices_lookup, Hic0.
    destruct (decide (h ∈ host :: peers)); reflexivity. }
  assert (Hlocal : ic !! host = Some (load hosts host)).
  { rewrite Hic, decide_True by left. reflexivity. }
  destruct (pickLeast_spec ic host (load hosts host) Hlocal) as [Hch Hmin].
  { pose proof (load_bounds hosts host). lia. }
  exists (pickLeast ic).2. split; [reflexivity |].
  rewrite Hic in Hch.
  destruct (decide ((pickLeast ic).2 ∈ host :: peers)) as [Hin |];
    [| discriminate].
  split; [exact Hin |]. intros h Hh.
  injection Hch as Hch. rewrite Hch. apply (Hmin h).
  rewrite Hic, decide_True by exact Hh. reflexivity.
Qed.

End Placement.

Section PlacementExamples.

Import Manager.

Lemma findNextAvailNodeForIndex_least_loaded_witness :
  exists chosen,
    findNextAvailNodeForIndex examplePlacement = Some chosen /\
    chosen ∈ ["n1"; "n2"]%string /\
    forall h, h ∈ ["n1"; "n2"]%string ->
      load (allSliceHosts examplePlacement ["b1"%string]) chosen
      <= load (allSliceHosts examplePlacement ["b1"%string]) h.
Proof.
  apply (findNextAvailNodeForIndex_least_loaded examplePlacement
           (MkGlobal ["b1"%string]) "n1"%string ["n2"%string]).
  - reflexivity.
  - reflexivity.
  - reflexivity.
  - intros key Hin. apply list_elem_of_singleton in Hin as ->.
    vm_compute. eauto.
  - vm_compute. reflexivity.
Defined.

(** In that cluster the new index goes to the idle node. *)
Lemma findNextAvailNodeForIndex_example :
  findNextAvailNodeForIndex examplePlacement = Some "n2"%string.
Proof. vm_compute. reflexivity. Qed.

End PlacementExamples.

Section CompactionTick.

Import Indexer.
Local Open Scope string_scope.
Local Open Scope Z_scope.

(** X23.  On a tick with a configuration in ASCII text and a mode other than
    full, when for every index the interval
    gate is closed or the weekday is not configured, the daemon still
    requests the compaction of the indexes that need an upgrade, of those
    only, whatever their fragmentation. *)
Theorem tick_outside_gate_compacts_upgrades_only
  (readings : list (Time * IndexInstStats)) (conf : Config) :
  asciiConfig conf = true ->
  ToLower (compaction_mode conf) <> "full" ->
  Forall (fun r => inInterval r.1 (interval conf) = false \/
                   dayConfigured r.1 (days_of_week conf) = false) readings ->
  tickRequests true true readings conf
  = (fun r => InstId r.2)
      <$> filter (fun r => NeedUpgrade r.2 = true) readings.
Proof.
  intros _ Hmode Hall. unfold tickRequests. f_equal.
  induction Hall as [| r rs Hr _ IH]; [reflexivity |].
  rewrite !filter_cons, IH.
  rewrite (needsCompaction_circular r.1 (Stats r.2) conf Hmode).
  assert (Hgate : inInterval r.1 (interval conf)
                  && dayConfigured r.1 (days_of_week conf) = false).
  { destruct Hr as [-> | ->]; [reflexivity | apply andb_false_r]. }
  rewrite Hgate, orb_false_r.
  destruct (NeedUpgrade r.2) eqn:E.
  - rewrite !decide_True by reflexivity. reflexivity.
  - rewrite !decide_False by discriminate. reflexivity.
Qed.

Lemma tick_outside_gate_compacts_upgrades_only_witness :
  let conf := MkConfig "circular" 0 0 "02:00,04:00" ["Sunday"] in
  let readings :=
    [(MkTime 17 0 Sunday, MkInstStats 1 false (MkStats (2 ^ 40) (fun _ => true)));
     (MkTime 17 5 Sunday, MkInstStats 2 true (MkStats 0 (fun _ => false)))] in
  tickRequests true true readings conf
  = (fun r => InstId r.2)
      <$> filter (fun r => NeedUpgrade r.2 = true) readings.
Proof.
  intros conf readings.
  apply tick_outside_gate_compacts_upgrades_only.
  - vm_compute. reflexivity.
  - vm_compute. discriminate.
  - repeat constructor.
Defined.

End CompactionTick.

Section FatalErrorThenClose.

Import Dataport.
Local Open Scope string_scope.

Variable SplitHostPort : string -> option (string * string).

Local Abbreviation genServer_step := (Dataport.genServer_step SplitHostPort).
Local Abbreviation genServer := (Dataport.genServer SplitHostPort).

Lemma closeall_step (a : actor) (raddr : string) (err : error)
  (nc : netConn) :
  err ≠ io_EOF -> err ≠ NetError true ->
  conns (srv a) !! raddr = Some nc ->
  genServer_step a (serverCmdError raddr (Some err))
  = (MkActor (srv a) (remoteUuids a) true,
     [CloseRequested; Sideband (Shutdown (vbucketsForRemotes (remoteUuids a)))]).
Proof.
  intros Heof Htimeout Hnc.
  unfold Dataport.genServer_step, jumboErrorHandler. rewrite Hnc.
  destruct err as [| | | | | | [|] |]; try reflexivity; congruence.
Qed.

(** X24.  The close-all policy from end to end.  A fatal error on a connection of
    a running server, followed by the close request it triggers, stops the
    actor after one [[]ShutdownDataport] event that names the pairs of all
    the remote addresses, and after the listener, every connection (once
    each) and the shutdown latch have been closed. *)
Theorem fatal_error_then_close (a : actor) (raddr : string) (err : error)
  (nc : netConn) :
  running a = true -> lis (srv a) = true ->
  err ≠ io_EOF -> err ≠ NetError true ->
  conns (srv a) !! raddr = Some nc ->
  ∃ ss effs,
    genServer a [serverCmdError raddr (Some err); serverCmdClose]
    = (MkActor (MkServer false ∅ true) (remoteUuids a) false,
       ([CloseRequested; Sideband (Shutdown ss)]
        ++ [ListenerClose] ++ effs ++ [FinchClose; CloseReplied])%list) ∧
    NoDup (sd_Bucket <$> ss) ∧
    shutdownBvbsOf ss ≡ₚ concat (map_to_list (remoteUuids a)).*2 ∧
    effs ≡ₚ closeEffects (conns (srv a)) (map_to_list (conns (srv a))).*1.
Proof.
  intros Hrun Hlis Heof Htimeout Hnc.
  destruct (closeConnections_once SplitHostPort (conns (srv a)))
    as [effs [Hclose Hperm]].
  destruct (vbucketsForRemotes_spec (remoteUuids a)) as [Hnd Hbvbs].
  exists (vbucketsForRemotes (remoteUuids a)), effs.
  split; [| auto].
  cbn [Dataport.genServer]. rewrite Hrun.
  rewrite (closeall_step a raddr err nc Heof Htimeout Hnc).
  cbn [running]. unfold Dataport.genServer_step at 1. cbn [srv remoteUuids].
  unfold handleClose. rewrite Hlis, Hclose.
  rewrite <- !app_assoc. reflexivity.
Qed.

End FatalErrorThenClose.

Section FatalErrorExamples.

Import Dataport.
Local Open Scope string_scope.

Lemma fatal_error_then_close_witness :
  ∃ ss effs,
    genServer net_SplitHostPort exampleActor
      [serverCmdError "10.0.0.2:5000" (Some ErrorPayload); serverCmdClose]
    = (MkActor (MkServer false ∅ true) (remoteUuids exampleActor) false,
       ([CloseRequested; Sideband (Shutdown ss)]
        ++ [ListenerClose] ++ effs ++ [FinchClose; CloseReplied])%list) ∧
    NoDup (sd_Bucket <$> ss) ∧
    shutdownBvbsOf ss ≡ₚ concat (map_to_list (remoteUuids exampleActor)).*2 ∧
    effs ≡ₚ closeEffects (conns (srv exampleActor))
              (map_to_list (conns (srv exampleActor))).*1.
Proof.
  apply (fatal_error_then_close net_SplitHostPort exampleActor
           "10.0.0.2:5000" ErrorPayload (NetConn (Some 3%nat) false)).
  - vm_compute. reflexivity.
  - vm_compute. reflexivity.
  - discriminate.
  - discriminate.
  - vm_compute. reflexivity.
Defined.

End FatalErrorExamples.
